(** * Allocation failure injector (seastar, util/alloc_failure_injector.hh)

    A shallow embedding of [seastar::memory::alloc_failure_injector], of the
    scoped [disable_failure_guard] and of the free hook [on_alloc_point()],
    followed by the properties of the injection schedule.

    Modelling choices.
    - [uint64_t] fields are integers of [Z] in the range [0 .. 2^64-1]; every
      arithmetic operation of the source is followed by its reduction modulo
      [2^64] ([Uint64.wrap]).
    - The member functions mutate the thread-local instance
      [the_alloc_failure_injector]; they are computations of a state and
      exception monad [M] over the execution context that owns the instance.
      An exception leaves the mutations made before it in place, as in C++.
    - [std::function<void()>] is, in the first embedding, a function on the
      part of the context that lies outside the injector (the [World]): it
      returns or throws, and may change that world.  These are the
      callbacks that do not call back into the injector they are stored
      in.  The second embedding ([Reentrant]) stores the closure as a
      sequence of actions, among them calls of [on_alloc_point],
      [fail_after] and [cancel] on the injector itself; on closures without
      such calls the two embeddings agree
      ([external_closure_is_callback]).  The context counts how many times
      the stored callback was run ([callback_runs]); this counter is a
      ghost field, no member function reads it. *)

From Stdlib Require Import ZArith List Bool Lia.
Import ListNotations.

Local Open Scope Z_scope.

(** ** [uint64_t] *)

Module Uint64.

(** [std::numeric_limits<uint64_t>::max()] *)
Definition max : Z := 2 ^ 64 - 1.

Definition wrap (z : Z) : Z := z mod 2 ^ 64.

Definition in_range (z : Z) : Prop := 0 <= z <= max.

(** [a + b] *)
Definition add (a b : Z) : Z := wrap (a + b).

(** [++a] *)
Definition incr (a : Z) : Z := wrap (a + 1).

(** [--a] *)
Definition decr (a : Z) : Z := wrap (a - 1).

End Uint64.

(** ** Exceptions and completions *)

Inductive exn : Type :=
| bad_alloc        (* std::bad_alloc *)
| other_exception. (* anything else a user callback throws *)

Inductive completion (A : Type) : Type :=
| Returns (a : A)
| Throws (e : exn).

Arguments Returns {A} a.
Arguments Throws {A} e.

Definition returned {A : Type} (r : completion A) : bool :=
  match r with Returns _ => true | Throws _ => false end.

Section Injector.

Context {World : Type}.

(** [std::function<void()>] *)
Definition callback : Type := World -> completion unit * World.

(** [class alloc_failure_injector], fields in declaration order. *)
Record alloc_failure_injector : Type := mk_injector {
  _alloc_count : Z;
  _fail_at : Z;
  _on_alloc_failure : callback;
  _failed : bool;
  _suppressed : Z
}.

(** The execution context: its thread-local injector, the world the
    callback acts on, and the number of runs of the stored callback. *)
Record context : Type := mk_context {
  the_alloc_failure_injector : alloc_failure_injector;
  world : World;
  callback_runs : nat
}.

(** *** The monad of member functions *)

Definition M (A : Type) : Type := context -> completion A * context.

Definition ret {A : Type} (a : A) : M A := fun c => (Returns a, c).

Definition bind {A B : Type} (m : M A) (k : A -> M B) : M B :=
  fun c =>
    match m c with
    | (Returns a, c') => k a c'
    | (Throws e, c') => (Throws e, c')
    end.

Notation "x <- m ;; k" := (bind m (fun x => k))
  (at level 61, m at next level, right associativity).
Notation "m ;; k" := (bind m (fun _ => k))
  (at level 61, right associativity).

(** [local_failure_injector()]: the instance of the current context. *)
Definition local_failure_injector : M alloc_failure_injector :=
  fun c => (Returns (the_alloc_failure_injector c), c).

(** Assignment to the instance. *)
Definition store (f : alloc_failure_injector -> alloc_failure_injector)
  : M unit :=
  fun c =>
    (Returns tt,
     mk_context (f (the_alloc_failure_injector c)) (world c) (callback_runs c)).

Definition set_alloc_count (v : Z) (i : alloc_failure_injector) :=
  mk_injector v (_fail_at i) (_on_alloc_failure i) (_failed i) (_suppressed i).

Definition set_fail_at (v : Z) (i : alloc_failure_injector) :=
  mk_injector (_alloc_count i) v (_on_alloc_failure i) (_failed i) (_suppressed i).

Definition set_on_alloc_failure (v : callback) (i : alloc_failure_injector) :=
  mk_injector (_alloc_count i) (_fail_at i) v (_failed i) (_suppressed i).

Definition set_failed (v : bool) (i : alloc_failure_injector) :=
  mk_injector (_alloc_count i) (_fail_at i) (_on_alloc_failure i) v (_suppressed i).

Definition set_suppressed (v : Z) (i : alloc_failure_injector) :=
  mk_injector (_alloc_count i) (_fail_at i) (_on_alloc_failure i) (_failed i) v.

(** [_on_alloc_failure()]: runs the stored callback on the world. *)
Definition call_on_alloc_failure : M unit :=
  fun c =>
    let (r, w) := _on_alloc_failure (the_alloc_failure_injector c) (world c) in
    (r, mk_context (the_alloc_failure_injector c) w (S (callback_runs c))).

(** The initial value of [_on_alloc_failure]: [[] { throw std::bad_alloc(); }] *)
Definition default_on_alloc_failure : callback :=
  fun w => (Throws bad_alloc, w).

(** *** Member functions *)

(** [void cancel()] *)
Definition cancel : M unit :=
  store (set_fail_at Uint64.max).

(** [void on_alloc_point()] *)
Definition on_alloc_point : M unit :=
  this <- local_failure_injector ;;
  if negb (_suppressed this =? 0) then
    ret tt
  else
    (if _fail_at this <=? _alloc_count this then
       store (set_failed true) ;;
       cancel ;;
       call_on_alloc_failure
     else ret tt) ;;
    this <- local_failure_injector ;;
    store (set_alloc_count (Uint64.incr (_alloc_count this))).

(** The injector as the callback of line 64 finds it: [_failed] set at
    line 62 and the schedule reset by the [cancel()] of line 63. *)
Definition tripped (i : alloc_failure_injector) : alloc_failure_injector :=
  set_fail_at Uint64.max (set_failed true i).

(** [uint64_t alloc_count() const] *)
Definition alloc_count : M Z :=
  this <- local_failure_injector ;;
  ret (_alloc_count this).

(** [void fail_after(uint64_t count)] *)
Definition fail_after (count : Z) : M unit :=
  this <- local_failure_injector ;;
  store (set_fail_at (Uint64.add (_alloc_count this) count)) ;;
  store (set_failed false).

(** [bool failed() const] *)
Definition failed : M bool :=
  this <- local_failure_injector ;;
  ret (_failed this).

(** [void set_alloc_failure_callback(std::function<void()> cb)] *)
Definition set_alloc_failure_callback (cb : callback) : M unit :=
  store (set_on_alloc_failure cb).

(** *** [struct disable_failure_guard]

    The flag is [SEASTAR_ENABLE_ALLOC_FAILURE_INJECTION]: without it the
    guard has an empty constructor and destructor. *)

Definition disable_failure_guard_ctor (enabled : bool) : M unit :=
  if enabled then
    this <- local_failure_injector ;;
    store (set_suppressed (Uint64.incr (_suppressed this)))
  else ret tt.

Definition disable_failure_guard_dtor (enabled : bool) : M unit :=
  if enabled then
    this <- local_failure_injector ;;
    store (set_suppressed (Uint64.decr (_suppressed this)))
  else ret tt.

(** The free function [seastar::memory::on_alloc_point()]. *)
Definition memory_on_alloc_point (enabled : bool) : M unit :=
  if enabled then on_alloc_point else ret tt.

(** *** Test drivers

    A driver is a sequence of calls on the injector of its context, in a
    build with injection enabled.  As in the loop of the header's comment,
    the driver catches what a call throws and goes on with the next call. *)

Inductive api_call : Type :=
| call_on_alloc_point
| call_alloc_count
| call_fail_after (count : Z)
| call_cancel
| call_failed
| call_set_alloc_failure_callback (cb : callback)
| guard_enter
| guard_exit.

Definition perform (a : api_call) : M unit :=
  match a with
  | call_on_alloc_point => on_alloc_point
  | call_alloc_count => alloc_count ;; ret tt
  | call_fail_after count => fail_after count
  | call_cancel => cancel
  | call_failed => failed ;; ret tt
  | call_set_alloc_failure_callback cb => set_alloc_failure_callback cb
  | guard_enter => disable_failure_guard_ctor true
  | guard_exit => disable_failure_guard_dtor true
  end.

Fixpoint drive (calls : list api_call) (c : context) : context :=
  match calls with
  | [] => c
  | a :: rest => drive rest (snd (perform a c))
  end.

Definition is_fail_after (a : api_call) : bool :=
  match a with call_fail_after _ => true | _ => false end.

Definition is_on_alloc_point (a : api_call) : bool :=
  match a with call_on_alloc_point => true | _ => false end.

(** Calls none of which is a [fail_after]. *)
Definition no_fail_after (calls : list api_call) : bool :=
  forallb (fun a => negb (is_fail_after a)) calls.

(** Number of [on_alloc_point] calls in a sequence. *)
Definition hooks (calls : list api_call) : Z :=
  Z.of_nat (length (filter is_on_alloc_point calls)).

(** Projections of a context used in statements. *)
Definition count_of (c : context) : Z := _alloc_count (the_alloc_failure_injector c).
Definition fail_at_of (c : context) : Z := _fail_at (the_alloc_failure_injector c).
Definition failed_of (c : context) : bool := _failed (the_alloc_failure_injector c).
Definition suppressed_of (c : context) : Z := _suppressed (the_alloc_failure_injector c).
Definition callback_of (c : context) : callback :=
  _on_alloc_failure (the_alloc_failure_injector c).

(** The [uint64_t] fields hold values of their type. *)
Definition well_formed (c : context) : Prop :=
  Uint64.in_range (count_of c) /\
  Uint64.in_range (fail_at_of c) /\
  Uint64.in_range (suppressed_of c).

(** An [on_alloc_point] call in context [c] is one that triggers: it is
    not suppressed and the count has reached the threshold. *)
Definition due (c : context) : Prop :=
  suppressed_of c = 0 /\ fail_at_of c <= count_of c.

End Injector.

Arguments callback : clear implicits.
Arguments alloc_failure_injector : clear implicits.
Arguments context : clear implicits.
Arguments M : clear implicits.
Arguments api_call : clear implicits.

(** ** Sample contexts *)

(** The thread-local instance before any call, in a given world: static
    storage is zeroed and the default member initializers of lines 51, 52
    and 54 have run. *)
Definition initial_context {World : Type} (w : World) : context World :=
  mk_context (mk_injector 0 Uint64.max default_on_alloc_failure false 0) w 0.

(** A callback that records its run in a counter and returns. *)
Definition recorder : callback nat := fun runs => (Returns tt, S runs).

(** The initial instance with the recorder installed. *)
Definition recording_context : context nat :=
  snd (set_alloc_failure_callback recorder (initial_context O)).

(** An instance that has counted [2^64-1] allocation points. *)
Definition saturated_context : context unit :=
  mk_context
    (mk_injector Uint64.max Uint64.max default_on_alloc_failure false 0) tt 0.

(** An instance that has counted one allocation point. *)
Definition one_counted_context : context unit :=
  mk_context (mk_injector 1 Uint64.max default_on_alloc_failure false 0) tt 0.


(** ** Callers

    The header gives its callers two things to put in their code: the hook
    [on_alloc_point()] and the scope of a [disable_failure_guard].  Code
    under test is modelled as straight-line code made of these, and the
    driver is the loop of the header's comment (lines 36 to 46).  The code
    reaches the injector through the free [on_alloc_point()] and the guard
    only, and the callbacks are those of the first embedding: they do not
    call back into the injector. *)

Section Callers.

Context {World : Type}.

(** A block [{ disable_failure_guard g; body }]: the destructor of [g] runs
    when the block is left, by its end or by an exception of [body]. *)
Definition with_disable_failure_guard {A : Type} (enabled : bool)
    (body : M World A) : M World A :=
  fun c =>
    let c1 := snd (disable_failure_guard_ctor enabled c) in
    let (r, c2) := body c1 in
    (r, snd (disable_failure_guard_dtor enabled c2)).

(** [m] allocation points in a row: the first that throws ends the row. *)
Fixpoint alloc_points (enabled : bool) (m : nat) : M World unit :=
  match m with
  | O => ret tt
  | S m' => bind (memory_on_alloc_point enabled) (fun _ => alloc_points enabled m')
  end.

Inductive step : Type :=
| alloc_point                      (* on_alloc_point(); *)
| guarded_alloc_points (m : nat).  (* { disable_failure_guard g; m points } *)

Definition run_step (enabled : bool) (s : step) : M World unit :=
  match s with
  | alloc_point => memory_on_alloc_point enabled
  | guarded_alloc_points m =>
      with_disable_failure_guard enabled (alloc_points enabled m)
  end.

(** [code_under_test()] *)
Fixpoint code_under_test (enabled : bool) (steps : list step) : M World unit :=
  match steps with
  | [] => ret tt
  | s :: rest => bind (run_step enabled s) (fun _ => code_under_test enabled rest)
  end.

Definition is_alloc_point (s : step) : bool :=
  match s with alloc_point => true | guarded_alloc_points _ => false end.

(** Number of allocation points of the code outside guard blocks. *)
Definition open_points (steps : list step) : Z :=
  Z.of_nat (length (filter is_alloc_point steps)).

(** The body of the [try] block (lines 39 to 41) for the value [i] that
    [i++] hands to [fail_after]. *)
Definition attempt (code : M World unit) (i : Z) : M World unit :=
  bind (fail_after i) (fun _ => bind code (fun _ => cancel)).


(** Number of [on_alloc_point] calls of a driver's sequence that are made
    at suppression depth zero, the depth being [depth] at the start. *)
Fixpoint unsuppressed_hooks (depth : Z) (calls : list (api_call World)) : Z :=
  match calls with
  | [] => 0
  | call_on_alloc_point :: rest =>
      (if depth =? 0 then 1 else 0) + unsuppressed_hooks depth rest
  | guard_enter :: rest => unsuppressed_hooks (Uint64.incr depth) rest
  | guard_exit :: rest => unsuppressed_hooks (Uint64.decr depth) rest
  | _ :: rest => unsuppressed_hooks depth rest
  end.

(** Calls none of which is a [set_alloc_failure_callback]. *)
Definition keeps_callback (calls : list (api_call World)) : bool :=
  forallb
    (fun a =>
       match a with call_set_alloc_failure_callback _ => false | _ => true end)
    calls.

(** The stored callback throws [e] whatever the world is. *)
Definition callback_throws (e : exn) (c : context World) : Prop :=
  forall w : World, fst (callback_of c w) = Throws e.

End Callers.

(** Sample code: three allocation points, two of them around a guarded
    block of four. *)
Definition sample_code : list step :=
  [alloc_point; guarded_alloc_points 4; alloc_point; alloc_point].

(** A driver's sequence: an arming, two open points, one guarded, one open. *)
Definition sample_calls : list (api_call unit) :=
  [call_fail_after 1; call_on_alloc_point; call_on_alloc_point; guard_enter;
   call_on_alloc_point; guard_exit; call_on_alloc_point].

(** ** Closures that call back into the injector

    A [std::function<void()>] can capture or look up the injector it is
    stored in.  In this second embedding the stored closure is a sequence
    of actions: code that stays outside the injector, and calls of the
    members that write its fields.  [on_alloc_point] runs the stored
    closure, whose [on_alloc_point] actions are calls of [on_alloc_point]
    again: the recursion of the source is bounded here by a depth, and
    [None] stands for a call chain deeper than that.  Everything else is
    the class as above. *)

Module Reentrant.

Section Closures.

Context {World : Type}.

Inductive action : Type :=
| act_external (f : World -> completion unit * World)
    (* code that does not reach the injector; it returns or throws *)
| act_on_alloc_point              (* local_failure_injector().on_alloc_point() *)
| act_fail_after (count : Z)      (* local_failure_injector().fail_after(count) *)
| act_cancel.                     (* local_failure_injector().cancel() *)

(** [std::function<void()>] *)
Definition closure : Type := list action.

(** [class alloc_failure_injector] *)
Record alloc_failure_injector : Type := mk_injector {
  _alloc_count : Z;
  _fail_at : Z;
  _on_alloc_failure : closure;
  _failed : bool;
  _suppressed : Z
}.

Record context : Type := mk_context {
  the_alloc_failure_injector : alloc_failure_injector;
  world : World;
  callback_runs : nat
}.

Definition M (A : Type) : Type := context -> option (completion A * context).

Definition ret {A : Type} (a : A) : M A := fun c => Some (Returns a, c).

Definition bind {A B : Type} (m : M A) (k : A -> M B) : M B :=
  fun c =>
    match m c with
    | Some (Returns a, c') => k a c'
    | Some (Throws e, c') => Some (Throws e, c')
    | None => None
    end.

Notation "x <- m ;; k" := (bind m (fun x => k))
  (at level 61, m at next level, right associativity).
Notation "m ;; k" := (bind m (fun _ => k))
  (at level 61, right associativity).

Definition local_failure_injector : M alloc_failure_injector :=
  fun c => Some (Returns (the_alloc_failure_injector c), c).

Definition store (f : alloc_failure_injector -> alloc_failure_injector)
  : M unit :=
  fun c =>
    Some (Returns tt,
          mk_context (f (the_alloc_failure_injector c)) (world c)
            (callback_runs c)).

Definition set_alloc_count (v : Z) (i : alloc_failure_injector) :=
  mk_injector v (_fail_at i) (_on_alloc_failure i) (_failed i) (_suppressed i).

Definition set_fail_at (v : Z) (i : alloc_failure_injector) :=
  mk_injector (_alloc_count i) v (_on_alloc_failure i) (_failed i) (_suppressed i).

Definition set_on_alloc_failure (v : closure) (i : alloc_failure_injector) :=
  mk_injector (_alloc_count i) (_fail_at i) v (_failed i) (_suppressed i).

Definition set_failed (v : bool) (i : alloc_failure_injector) :=
  mk_injector (_alloc_count i) (_fail_at i) (_on_alloc_failure i) v (_suppressed i).

(** [void cancel()] *)
Definition cancel : M unit :=
  store (set_fail_at Uint64.max).

(** [void fail_after(uint64_t count)] *)
Definition fail_after (count : Z) : M unit :=
  this <- local_failure_injector ;;
  store (set_fail_at (Uint64.add (_alloc_count this) count)) ;;
  store (set_failed false).

(** [uint64_t alloc_count() const] *)
Definition alloc_count : M Z :=
  this <- local_failure_injector ;;
  ret (_alloc_count this).

(** [bool failed() const] *)
Definition failed : M bool :=
  this <- local_failure_injector ;;
  ret (_failed this).

(** [void set_alloc_failure_callback(std::function<void()> cb)] *)
Definition set_alloc_failure_callback (cb : closure) : M unit :=
  store (set_on_alloc_failure cb).

(** A piece of code outside the injector, run on the world. *)
Definition run_external (f : World -> completion unit * World) : M unit :=
  fun c =>
    let (r, w) := f (world c) in
    Some (r, mk_context (the_alloc_failure_injector c) w (callback_runs c)).

(** The body of a closure, [hook] being what a call of [on_alloc_point]
    inside it does. *)
Fixpoint run_closure (hook : M unit) (body : closure) : M unit :=
  match body with
  | [] => ret tt
  | act_external f :: rest => run_external f ;; run_closure hook rest
  | act_on_alloc_point :: rest => hook ;; run_closure hook rest
  | act_fail_after count :: rest => fail_after count ;; run_closure hook rest
  | act_cancel :: rest => cancel ;; run_closure hook rest
  end.

(** [_on_alloc_failure()]: one more run of the stored closure. *)
Definition call_on_alloc_failure (hook : M unit) : M unit :=
  fun c =>
    run_closure hook (_on_alloc_failure (the_alloc_failure_injector c))
      (mk_context (the_alloc_failure_injector c) (world c)
         (S (callback_runs c))).

(** The body of [void on_alloc_point()], [hook] being what a call of
    [on_alloc_point] made by the closure does. *)
Definition on_alloc_point_body (hook : M unit) : M unit :=
  this <- local_failure_injector ;;
  if negb (_suppressed this =? 0) then
    ret tt
  else
    (if _fail_at this <=? _alloc_count this then
       store (set_failed true) ;;
       cancel ;;
       call_on_alloc_failure hook
     else ret tt) ;;
    this <- local_failure_injector ;;
    store (set_alloc_count (Uint64.incr (_alloc_count this))).

(** [void on_alloc_point()], for call chains of at most [depth] nested
    calls. *)
Fixpoint on_alloc_point (depth : nat) : M unit :=
  match depth with
  | O => fun _ => None
  | S depth' => on_alloc_point_body (on_alloc_point depth')
  end.

(** The closure does not call back into the injector. *)
Definition external (body : closure) : bool :=
  forallb (fun a => match a with act_external _ => true | _ => false end) body.

(** What a closure that stays outside the injector does to the world. *)
Fixpoint external_effect (body : closure) (w : World)
  : completion unit * World :=
  match body with
  | act_external f :: rest =>
      match f w with
      | (Returns _, w') => external_effect rest w'
      | (Throws e, w') => (Throws e, w')
      end
  | _ => (Returns tt, w)
  end.

Definition count_of (c : context) : Z := _alloc_count (the_alloc_failure_injector c).
Definition fail_at_of (c : context) : Z := _fail_at (the_alloc_failure_injector c).
Definition failed_of (c : context) : bool := _failed (the_alloc_failure_injector c).
Definition suppressed_of (c : context) : Z := _suppressed (the_alloc_failure_injector c).
Definition closure_of (c : context) : closure :=
  _on_alloc_failure (the_alloc_failure_injector c).

(** The call of [on_alloc_point] in [c] triggers. *)
Definition due (c : context) : Prop :=
  suppressed_of c = 0 /\ fail_at_of c <= count_of c.

(** The thread-local instance before any call; the default closure is
    [[] { throw std::bad_alloc(); }]. *)
Definition initial_context (w : World) : context :=
  mk_context
    (mk_injector 0 Uint64.max [act_external (fun w => (Throws bad_alloc, w))]
       false 0)
    w O.

(** The result of a call that returned or threw: its context. *)
Definition after (r : option (completion unit * context)) (c : context)
  : context :=
  match r with Some (_, c') => c' | None => c end.

End Closures.

Arguments action : clear implicits.
Arguments closure : clear implicits.
Arguments alloc_failure_injector : clear implicits.
Arguments context : clear implicits.
Arguments M : clear implicits.

End Reentrant.

(** The same context with the closure read as a function on the world: the
    context of the first embedding that a context with a closure outside
    the injector stands for. *)
Definition forget {World : Type} (c : Reentrant.context World) : context World :=
  mk_context
    (mk_injector (Reentrant.count_of c) (Reentrant.fail_at_of c)
       (Reentrant.external_effect (Reentrant.closure_of c))
       (Reentrant.failed_of c) (Reentrant.suppressed_of c))
    (Reentrant.world c) (Reentrant.callback_runs c).

(** Closures for the samples: one that records its run and returns, one
    that re-arms the injector, one that allocates, one that allocates and
    then throws. *)
Definition recording_closure : Reentrant.closure nat :=
  [Reentrant.act_external (fun runs => (Returns tt, S runs))].

Definition rearming_closure : Reentrant.closure unit :=
  [Reentrant.act_fail_after 0].

Definition allocating_closure : Reentrant.closure unit :=
  [Reentrant.act_on_alloc_point].

Definition allocating_throwing_closure : Reentrant.closure unit :=
  [Reentrant.act_on_alloc_point;
   Reentrant.act_external (fun w => (Throws bad_alloc, w))].

(** ** Proof steps *)

(** Runs the straight-line member functions on a symbolic context. *)
Ltac unfold_calls :=
  unfold fail_after, cancel, alloc_count, failed, set_alloc_failure_callback,
    disable_failure_guard_ctor, disable_failure_guard_dtor,
    bind, local_failure_injector, ret, store;
  unfold count_of, fail_at_of, failed_of, suppressed_of, callback_of;
  simpl.

(** Reduces field reads of explicit records, and nothing else. *)
Ltac fields :=
  unfold count_of, fail_at_of, failed_of, suppressed_of, callback_of, tripped,
    set_alloc_count, set_fail_at, set_on_alloc_failure, set_failed,
    set_suppressed in *;
  cbn [the_alloc_failure_injector world callback_runs
       _alloc_count _fail_at _on_alloc_failure _failed _suppressed fst snd] in *.

(** Settles a closed statement about a sample context by evaluation. *)
Ltac concrete :=
  repeat split; try reflexivity; vm_compute; try reflexivity; try congruence.

(** * Properties *)

(** ** Arithmetic of [uint64_t] *)

Lemma max_value : Uint64.max = 18446744073709551615.
Proof. reflexivity. Qed.

Lemma wrap_small (z : Z) : Uint64.in_range z -> Uint64.wrap z = z.
Proof.
  unfold Uint64.in_range, Uint64.wrap; rewrite max_value; intros H.
  apply Z.mod_small; lia.
Qed.

Lemma wrap_in_range (z : Z) : Uint64.in_range (Uint64.wrap z).
Proof.
  unfold Uint64.in_range, Uint64.wrap; rewrite max_value.
  assert (0 <= z mod 2 ^ 64 < 2 ^ 64) by (apply Z.mod_pos_bound; lia).
  lia.
Qed.

Lemma incr_below_max (a : Z) : 0 <= a < Uint64.max -> Uint64.incr a = a + 1.
Proof.
  intros H; unfold Uint64.incr; apply wrap_small.
  unfold Uint64.in_range; lia.
Qed.

Lemma incr_max : Uint64.incr Uint64.max = 0.
Proof. reflexivity. Qed.

Lemma decr_zero : Uint64.decr 0 = Uint64.max.
Proof. reflexivity. Qed.

Lemma decr_positive (a : Z) : 0 < a <= Uint64.max -> Uint64.decr a = a - 1.
Proof.
  intros H; unfold Uint64.decr; apply wrap_small.
  unfold Uint64.in_range; lia.
Qed.

Lemma decr_incr (a : Z) : Uint64.in_range a -> Uint64.decr (Uint64.incr a) = a.
Proof.
  intros H. destruct (Z.eq_dec a Uint64.max) as [->|Hne].
  - reflexivity.
  - unfold Uint64.in_range in H.
    rewrite incr_below_max by lia. rewrite decr_positive by lia. lia.
Qed.

Lemma add_no_overflow (a b : Z) :
  0 <= a -> 0 <= b -> a + b <= Uint64.max -> Uint64.add a b = a + b.
Proof.
  intros Ha Hb H; unfold Uint64.add; apply wrap_small.
  unfold Uint64.in_range; lia.
Qed.

Section Properties.

Context {World : Type}.

Implicit Types (c : context World) (cb : callback World) (i : alloc_failure_injector World).

(** ** The three cases of [on_alloc_point] *)

(** Line 58: a suppressed call returns at once. *)
Lemma on_alloc_point_suppressed c :
  suppressed_of c <> 0 -> on_alloc_point c = (Returns tt, c).
Proof.
  unfold suppressed_of, on_alloc_point, bind, local_failure_injector, ret.
  intros H. apply Z.eqb_neq in H. rewrite H. reflexivity.
Qed.

(** Lines 61 and 66: below the threshold the call is counted. *)
Lemma on_alloc_point_counted c :
  suppressed_of c = 0 -> count_of c < fail_at_of c ->
  on_alloc_point c =
  (Returns tt,
   mk_context
     (set_alloc_count (Uint64.incr (count_of c)) (the_alloc_failure_injector c))
     (world c) (callback_runs c)).
Proof.
  unfold suppressed_of, count_of, fail_at_of.
  unfold on_alloc_point, bind, local_failure_injector, ret, store.
  intros Hs Hlt. rewrite Hs. simpl.
  apply Z.leb_gt in Hlt. rewrite Hlt. destruct c; reflexivity.
Qed.

(** Lines 61 to 66: at the threshold the callback runs, and the call is
    counted when the callback returns. *)
Lemma on_alloc_point_due c :
  due c ->
  on_alloc_point c =
  match callback_of c (world c) with
  | (Returns _, w) =>
      (Returns tt,
       mk_context
         (set_alloc_count (Uint64.incr (count_of c))
            (tripped (the_alloc_failure_injector c)))
         w (S (callback_runs c)))
  | (Throws e, w) =>
      (Throws e,
       mk_context (tripped (the_alloc_failure_injector c)) w (S (callback_runs c)))
  end.
Proof.
  unfold due, suppressed_of, count_of, fail_at_of, callback_of.
  unfold on_alloc_point, bind, local_failure_injector, ret, store, cancel,
    call_on_alloc_failure.
  intros [Hs Hge]. rewrite Hs. simpl.
  apply Z.leb_le in Hge. rewrite Hge. simpl.
  destruct (_on_alloc_failure (the_alloc_failure_injector c) (world c)) as [[[]|e] w];
    reflexivity.
Qed.

(** ** Calls other than [on_alloc_point] *)

Lemma fail_after_context c (count : Z) :
  fail_after count c =
  (Returns tt,
   mk_context
     (mk_injector (count_of c) (Uint64.add (count_of c) count) (callback_of c)
        false (suppressed_of c))
     (world c) (callback_runs c)).
Proof. unfold_calls. reflexivity. Qed.

Lemma cancel_context c :
  cancel c =
  (Returns tt,
   mk_context
     (mk_injector (count_of c) Uint64.max (callback_of c) (failed_of c)
        (suppressed_of c))
     (world c) (callback_runs c)).
Proof. unfold_calls. reflexivity. Qed.

Lemma guard_ctor_context c :
  disable_failure_guard_ctor true c =
  (Returns tt,
   mk_context
     (set_suppressed (Uint64.incr (suppressed_of c)) (the_alloc_failure_injector c))
     (world c) (callback_runs c)).
Proof. unfold_calls. reflexivity. Qed.

Lemma guard_dtor_context c :
  disable_failure_guard_dtor true c =
  (Returns tt,
   mk_context
     (set_suppressed (Uint64.decr (suppressed_of c)) (the_alloc_failure_injector c))
     (world c) (callback_runs c)).
Proof. unfold_calls. reflexivity. Qed.

Lemma context_eta c :
  mk_context
    (mk_injector (count_of c) (fail_at_of c) (callback_of c) (failed_of c)
       (suppressed_of c))
    (world c) (callback_runs c) = c.
Proof. destruct c as [[] ? ?]; reflexivity. Qed.

(** Without the build flag the guard and the free hook do nothing. *)
Lemma disabled_build_is_inert c :
  disable_failure_guard_ctor false c = (Returns tt, c) /\
  disable_failure_guard_dtor false c = (Returns tt, c) /\
  memory_on_alloc_point false c = (Returns tt, c) /\
  memory_on_alloc_point true c = on_alloc_point c.
Proof. repeat split. Qed.

(** ** Drivers *)

Lemma drive_app (l1 l2 : list (api_call World)) c :
  drive (l1 ++ l2) c = drive l2 (drive l1 c).
Proof.
  revert c; induction l1 as [|a l1 IH]; intros c; simpl; [reflexivity|].
  apply IH.
Qed.

Lemma drive_suppressed_hooks (n : nat) c :
  suppressed_of c <> 0 -> drive (repeat call_on_alloc_point n) c = c.
Proof.
  intros H; induction n as [|n IH]; simpl; [reflexivity|].
  rewrite on_alloc_point_suppressed by assumption. exact IH.
Qed.

Lemma drive_guard_exits (n : nat) c :
  Z.of_nat n <= suppressed_of c <= Uint64.max ->
  drive (repeat guard_exit n) c =
  mk_context
    (set_suppressed (suppressed_of c - Z.of_nat n) (the_alloc_failure_injector c))
    (world c) (callback_runs c).
Proof.
  revert c; induction n as [|n IH]; intros c H.
  - simpl. rewrite Z.sub_0_r. destruct c as [[] ? ?]; reflexivity.
  - cbn [repeat drive perform]. rewrite guard_dtor_context. cbn [snd].
    rewrite IH.
    + unfold suppressed_of; simpl. rewrite decr_positive by (unfold suppressed_of in H; lia).
      f_equal. unfold set_suppressed; simpl. f_equal. lia.
    + unfold suppressed_of in *; simpl. rewrite decr_positive by lia. lia.
Qed.

(** ** Suppression *)

(** C4. In a context whose suppression depth is not zero, [on_alloc_point]
    returns and leaves the whole context as it was: no field of the injector
    changes and the callback is not run, whatever the count and the
    threshold are.  Any number of such calls does the same, and once the
    guards that are held have been destroyed the injector is the one that
    entered the suppressed region, with depth zero: count, threshold, flag
    and callback are where the schedule left them. *)
Theorem suppressed_on_alloc_point_is_invisible c :
  well_formed c -> suppressed_of c <> 0 ->
  on_alloc_point c = (Returns tt, c) /\
  (forall n : nat, drive (repeat call_on_alloc_point n) c = c) /\
  (forall n : nat,
     drive (repeat call_on_alloc_point n ++
            repeat guard_exit (Z.to_nat (suppressed_of c))) c =
     mk_context
       (mk_injector (count_of c) (fail_at_of c) (callback_of c) (failed_of c) 0)
       (world c) (callback_runs c)).
Proof.
  intros (_ & _ & Hs) Hne. split; [|split].
  - apply on_alloc_point_suppressed; assumption.
  - intros n. apply drive_suppressed_hooks; assumption.
  - intros n. rewrite drive_app, drive_suppressed_hooks by assumption.
    unfold Uint64.in_range in Hs.
    rewrite drive_guard_exits by (rewrite Z2Nat.id; lia).
    rewrite Z2Nat.id by lia. rewrite Z.sub_diag. reflexivity.
Qed.

(** C5. A guard adds one to [_suppressed] when it is constructed and takes
    one off when it is destroyed (in [uint64_t]), and touches nothing else.
    Of two nested guards, destroying one leaves the depth nonzero, and
    destroying both gives back the context as it was before the first; from
    active injection (depth zero) the depths are 1, 2, 1 and 0 again. *)
Theorem disable_failure_guards_nest c :
  well_formed c ->
  let c1 := snd (disable_failure_guard_ctor true c) in
  let c2 := snd (disable_failure_guard_ctor true c1) in
  let c3 := snd (disable_failure_guard_dtor true c2) in
  let c4 := snd (disable_failure_guard_dtor true c3) in
  c1 = mk_context
         (set_suppressed (Uint64.incr (suppressed_of c)) (the_alloc_failure_injector c))
         (world c) (callback_runs c) /\
  c3 = mk_context
         (set_suppressed (Uint64.decr (suppressed_of c2)) (the_alloc_failure_injector c2))
         (world c2) (callback_runs c2) /\
  (suppressed_of c < Uint64.max ->
     suppressed_of c1 = suppressed_of c + 1 /\ suppressed_of c3 <> 0) /\
  c3 = c1 /\
  c4 = c /\
  (suppressed_of c = 0 ->
     suppressed_of c1 = 1 /\ suppressed_of c2 = 2 /\
     suppressed_of c3 = 1 /\ suppressed_of c4 = 0).
Proof.
  intros (_ & _ & Hs). cbv zeta.
  rewrite !guard_ctor_context, !guard_dtor_context. cbn [snd].
  unfold suppressed_of in *. cbn [the_alloc_failure_injector set_suppressed _suppressed
    _alloc_count _fail_at _on_alloc_failure _failed world callback_runs].
  assert (Hi : Uint64.in_range (Uint64.incr (_suppressed (the_alloc_failure_injector c))))
    by apply wrap_in_range.
  rewrite (decr_incr _ Hi), (decr_incr _ Hs).
  repeat split.
  - apply incr_below_max. unfold Uint64.in_range in Hs. lia.
  - rewrite incr_below_max by (unfold Uint64.in_range in Hs; lia).
    unfold Uint64.in_range in Hs. lia.
  - destruct c as [[] ? ?]; reflexivity.
  - rewrite H. reflexivity.
  - rewrite H. reflexivity.
  - rewrite H. reflexivity.
  - assumption.
Qed.

(** ** Arming *)

(** C9 (amended). [fail_after count] stores in [_fail_at] the sum of
    [_alloc_count] and [count] reduced modulo [2^64], and [false] in
    [_failed]; count, callback, suppression depth, world and callback runs
    keep their values.  The stored threshold is the arithmetic sum exactly
    when that sum does not exceed [2^64-1].  Arming again gives the context
    that arming once with the second offset gives: the earlier threshold
    and flag leave no trace. *)
Theorem fail_after_arms_modulo c (count : Z) :
  well_formed c -> Uint64.in_range count ->
  fail_after count c =
  (Returns tt,
   mk_context
     (mk_injector (count_of c) ((count_of c + count) mod 2 ^ 64) (callback_of c)
        false (suppressed_of c))
     (world c) (callback_runs c)) /\
  well_formed (snd (fail_after count c)) /\
  (fail_at_of (snd (fail_after count c)) = count_of c + count <->
   count_of c + count <= Uint64.max) /\
  (forall earlier : Z,
     fail_after count (snd (fail_after earlier c)) = fail_after count c).
Proof.
  intros (Hc & Hf & Hs) Hk. rewrite fail_after_context. cbn [snd].
  split; [reflexivity|]. split; [|split].
  - unfold well_formed, count_of, fail_at_of, suppressed_of in *; simpl.
    split; [assumption|]. split; [apply wrap_in_range|assumption].
  - unfold fail_at_of; simpl. unfold Uint64.in_range in *. split.
    + intros H.
      pose proof (wrap_in_range (count_of c + count)) as Hr.
      unfold Uint64.add in H. rewrite H in Hr. unfold Uint64.in_range in Hr. lia.
    + intros H. apply add_no_overflow; lia.
  - intros earlier. rewrite !fail_after_context. reflexivity.
Qed.

(** ** The triggering call *)

(** First embedding (callbacks outside the injector).  When the count has
    reached the threshold, injection is not suppressed and the stored
    callback returns, [on_alloc_point] returns as well, after one run of
    the callback, and has applied [++_alloc_count]:
    the count is the old one plus one in [uint64_t], which is the old one
    plus one below [2^64-1].  A call that does not trigger, made at the same
    count, leaves the same count. *)
Theorem returning_callback_call_is_counted c :
  due c -> fst (callback_of c (world c)) = Returns tt ->
  fst (on_alloc_point c) = Returns tt /\
  callback_runs (snd (on_alloc_point c)) = S (callback_runs c) /\
  count_of (snd (on_alloc_point c)) = Uint64.incr (count_of c) /\
  (0 <= count_of c < Uint64.max ->
   count_of (snd (on_alloc_point c)) = count_of c + 1) /\
  (forall c' : context World,
     suppressed_of c' = 0 -> count_of c' < fail_at_of c' ->
     count_of c' = count_of c ->
     count_of (snd (on_alloc_point c')) = count_of (snd (on_alloc_point c))).
Proof.
  intros Hdue Hcb. rewrite (on_alloc_point_due c Hdue).
  destruct (callback_of c (world c)) as [[[]|e] w]; simpl in Hcb; [|discriminate].
  cbn [fst snd callback_runs]. unfold count_of at 1 3 5; simpl.
  repeat split.
  - intros H. apply incr_below_max; assumption.
  - intros c' Hs Hlt Heq. rewrite (on_alloc_point_counted c' Hs Hlt).
    unfold count_of at 1; simpl. rewrite Heq. reflexivity.
Qed.

(** First embedding (callbacks outside the injector).  When
    [on_alloc_point] triggers and the stored callback throws, as the
    default one does, the exception leaves [on_alloc_point] before line 66:
    the count is the one before the call, [_failed] is set and the callback
    has run once. *)
Theorem throwing_callback_call_is_not_counted c (e : exn) :
  due c -> fst (callback_of c (world c)) = Throws e ->
  fst (on_alloc_point c) = Throws e /\
  count_of (snd (on_alloc_point c)) = count_of c /\
  failed_of (snd (on_alloc_point c)) = true /\
  callback_runs (snd (on_alloc_point c)) = S (callback_runs c).
Proof.
  intros Hdue Hcb. rewrite (on_alloc_point_due c Hdue).
  destruct (callback_of c (world c)) as [[[]|e'] w]; simpl in Hcb; [discriminate|].
  injection Hcb as ->. repeat split.
Qed.

Lemma default_callback_throws c :
  callback_of c = default_on_alloc_failure ->
  fst (callback_of c (world c)) = Throws bad_alloc.
Proof. intros ->. reflexivity. Qed.

(** First embedding (callbacks outside the injector).  After
    [set_alloc_failure_callback cb] with a [cb] that returns, the call of
    [on_alloc_point] that is due runs [cb] once, on the world as it was,
    returns to its caller, and [failed()] answers [true] from then on. *)
Theorem recording_callback_runs_once c cb :
  due c -> fst (cb (world c)) = Returns tt ->
  let c1 := snd (set_alloc_failure_callback cb c) in
  let c2 := snd (on_alloc_point c1) in
  fst (on_alloc_point c1) = Returns tt /\
  callback_runs c2 = S (callback_runs c) /\
  world c2 = snd (cb (world c)) /\
  callback_of c2 = cb /\
  fst (failed c2) = Returns true.
Proof.
  intros Hdue Hcb c1 c2.
  assert (Hdue1 : due c1) by exact Hdue.
  subst c2. rewrite (on_alloc_point_due c1 Hdue1).
  change (callback_of c1) with cb. change (world c1) with (world c).
  destruct (cb (world c)) as [[[]|e] w]; simpl in Hcb; [|discriminate].
  repeat split.
Qed.

(** ** Sequences of calls *)

Lemma on_alloc_point_due_facts c :
  due c ->
  let c' := snd (on_alloc_point c) in
  callback_runs c' = S (callback_runs c) /\
  failed_of c' = true /\
  fail_at_of c' = Uint64.max /\
  suppressed_of c' = suppressed_of c /\
  callback_of c' = callback_of c /\
  (count_of c' = count_of c \/ count_of c' = Uint64.incr (count_of c)).
Proof.
  intros Hdue. cbv zeta. rewrite (on_alloc_point_due c Hdue).
  destruct (callback_of c (world c)) as [[[]|e] w]; cbn [snd];
    unfold count_of, failed_of, fail_at_of, suppressed_of, callback_of; simpl;
    repeat split; auto.
Qed.

Lemma on_alloc_point_cases c :
  (suppressed_of c <> 0 /\ on_alloc_point c = (Returns tt, c)) \/
  (suppressed_of c = 0 /\ count_of c < fail_at_of c /\
   on_alloc_point c =
   (Returns tt,
    mk_context
      (set_alloc_count (Uint64.incr (count_of c)) (the_alloc_failure_injector c))
      (world c) (callback_runs c))) \/
  due c.
Proof.
  destruct (Z.eq_dec (suppressed_of c) 0) as [Hs|Hs].
  - destruct (Z_le_gt_dec (fail_at_of c) (count_of c)) as [Hle|Hgt].
    + right; right. split; assumption.
    + right; left. split; [assumption|]. split; [lia|].
      apply on_alloc_point_counted; [assumption|lia].
  - left. split; [assumption|]. apply on_alloc_point_suppressed; assumption.
Qed.

Lemma hooks_cons (a : api_call World) (rest : list (api_call World)) :
  hooks (a :: rest) = hooks [a] + hooks rest.
Proof.
  unfold hooks; simpl. destruct (is_on_alloc_point a); simpl length; lia.
Qed.

Lemma hooks_nonneg (calls : list (api_call World)) : 0 <= hooks calls.
Proof. unfold hooks; lia. Qed.

Lemma hooks_repeat (n : nat) :
  hooks (repeat (@call_on_alloc_point World) n) = Z.of_nat n.
Proof.
  unfold hooks. induction n as [|n IH]; [reflexivity|].
  simpl repeat. simpl filter. simpl length. lia.
Qed.

Lemma no_fail_after_repeat (n : nat) :
  no_fail_after (repeat (@call_on_alloc_point World) n) = true.
Proof. induction n as [|n IH]; [reflexivity|exact IH]. Qed.

(** A call other than [fail_after] either leaves flag and callback runs
    alone, or triggers: one more run, and the flag set. *)
Lemma perform_flag_and_runs (a : api_call World) c :
  is_fail_after a = false ->
  let c' := snd (perform a c) in
  (callback_runs c' = callback_runs c /\ failed_of c' = failed_of c) \/
  (callback_runs c' = S (callback_runs c) /\ failed_of c' = true).
Proof.
  intros Ha. cbv zeta. destruct a; try discriminate; try (left; split; reflexivity).
  cbn [perform].
  destruct (on_alloc_point_cases c) as [[_ ->]|[(_ & _ & ->)|Hdue]].
  - left; split; reflexivity.
  - left; split; reflexivity.
  - right. destruct (on_alloc_point_due_facts c Hdue) as (? & ? & _). split; assumption.
Qed.

Lemma drive_flag_and_runs (calls : list (api_call World)) c :
  no_fail_after calls = true ->
  (callback_runs c <= callback_runs (drive calls c))%nat /\
  failed_of (drive calls c) =
  (failed_of c || (callback_runs c <? callback_runs (drive calls c))%nat)%bool.
Proof.
  revert c; induction calls as [|a rest IH]; intros c Hnf.
  - simpl. rewrite Nat.ltb_irrefl, orb_false_r. split; [lia|reflexivity].
  - simpl in Hnf. apply andb_true_iff in Hnf as [Ha Hrest].
    apply negb_true_iff in Ha.
    cbn [drive]. destruct (IH (snd (perform a c)) Hrest) as [Hmono Hflag].
    rewrite Hflag.
    destruct (perform_flag_and_runs a c Ha) as [[Hr Hf]|[Hr Hf]];
      rewrite Hr in *; rewrite Hf.
    + split; [assumption|reflexivity].
    + split; [lia|]. simpl.
      symmetry. rewrite orb_true_iff. right. apply Nat.ltb_lt. lia.
Qed.

(** A call other than [fail_after], made while the count is below the
    largest [uint64_t]: the count moves by at most one, and only a
    triggering call runs the callback, leaving the schedule disarmed. *)
Lemma perform_bounded (a : api_call World) c :
  is_fail_after a = false ->
  0 <= count_of c -> count_of c + hooks [a] <= Uint64.max ->
  let c' := snd (perform a c) in
  count_of c <= count_of c' <= count_of c + hooks [a] /\
  ((callback_runs c' = callback_runs c /\ failed_of c' = failed_of c /\
    (fail_at_of c = Uint64.max -> fail_at_of c' = Uint64.max)) \/
   (hooks [a] = 1 /\ fail_at_of c <= count_of c /\
    callback_runs c' = S (callback_runs c) /\ fail_at_of c' = Uint64.max)).
Proof.
  intros Ha H0 Hmax. cbv zeta.
  destruct a; try discriminate;
    try (unfold hooks in *; unfold count_of, fail_at_of, failed_of in *;
         simpl in *; split; [lia|left; repeat split; auto]).
  cbn [perform]. change (hooks [call_on_alloc_point]) with 1 in *.
  destruct (on_alloc_point_cases c) as [[_ ->]|[(_ & Hlt & ->)|Hdue]].
  - cbn [snd]. split; [lia|]. left; repeat split; auto.
  - cbn [snd]. unfold count_of in *; simpl.
    rewrite incr_below_max by lia. split; [lia|]. left; repeat split; auto.
  - destruct (on_alloc_point_due_facts c Hdue) as (Hr & _ & Hf & _ & _ & Hc).
    split.
    + destruct Hc as [->| ->]; [lia|]. rewrite incr_below_max by lia. lia.
    + right. destruct Hdue as [_ Hdue]. repeat split; assumption.
Qed.

(** From a disarmed schedule no sequence of calls without [fail_after]
    triggers, as long as the count stays below the largest [uint64_t]. *)
Lemma drive_disarmed (calls : list (api_call World)) c :
  no_fail_after calls = true ->
  fail_at_of c = Uint64.max ->
  0 <= count_of c -> count_of c + hooks calls <= Uint64.max ->
  callback_runs (drive calls c) = callback_runs c /\
  failed_of (drive calls c) = failed_of c /\
  fail_at_of (drive calls c) = Uint64.max.
Proof.
  revert c; induction calls as [|a rest IH]; intros c Hnf Hd H0 Hmax.
  - simpl. repeat split; assumption.
  - simpl in Hnf. apply andb_true_iff in Hnf as [Ha Hrest].
    apply negb_true_iff in Ha. rewrite hooks_cons in Hmax.
    pose proof (hooks_nonneg rest) as Hrn.
    pose proof (hooks_nonneg [a]) as Han.
    destruct (perform_bounded a c Ha H0 ltac:(lia)) as [Hc [(Hr & Hf & Hk)|(Hone & Hdue & _)]].
    + cbn [drive]. destruct (IH (snd (perform a c)) Hrest (Hk Hd)) as (Hr' & Hf' & Hk');
        [lia|lia|].
      rewrite Hr', Hf', Hr, Hf. repeat split; assumption.
    + lia.
Qed.

(** While the count stays below the largest [uint64_t], a sequence of calls
    without [fail_after] runs the callback at most once. *)
Lemma drive_at_most_once (calls : list (api_call World)) c :
  no_fail_after calls = true ->
  0 <= count_of c -> count_of c + hooks calls <= Uint64.max ->
  (callback_runs (drive calls c) <= S (callback_runs c))%nat.
Proof.
  revert c; induction calls as [|a rest IH]; intros c Hnf H0 Hmax.
  - simpl. lia.
  - simpl in Hnf. apply andb_true_iff in Hnf as [Ha Hrest].
    apply negb_true_iff in Ha. rewrite hooks_cons in Hmax.
    pose proof (hooks_nonneg rest) as Hrn.
    pose proof (hooks_nonneg [a]) as Han.
    cbn [drive].
    destruct (perform_bounded a c Ha H0 ltac:(lia)) as [Hc [(Hr & _)|(_ & _ & Hr & Hd)]].
    + rewrite <- Hr. apply IH; [assumption|lia|lia].
    + destruct (drive_disarmed rest (snd (perform a c)) Hrest Hd) as (Hr' & _);
        [lia|lia|].
      rewrite Hr', Hr. lia.
Qed.

(** Calls below the threshold are counted, one by one. *)
Lemma drive_hooks_below (n : nat) c :
  suppressed_of c = 0 -> 0 <= count_of c ->
  count_of c + Z.of_nat n <= fail_at_of c -> fail_at_of c <= Uint64.max ->
  drive (repeat call_on_alloc_point n) c =
  mk_context
    (set_alloc_count (count_of c + Z.of_nat n) (the_alloc_failure_injector c))
    (world c) (callback_runs c).
Proof.
  revert c; induction n as [|n IH]; intros c Hs H0 Hle Hmax.
  - simpl. rewrite Z.add_0_r. destruct c as [[] ? ?]; reflexivity.
  - cbn [repeat drive perform].
    assert (Hlt : count_of c < fail_at_of c) by lia.
    rewrite (on_alloc_point_counted c Hs Hlt). cbn [snd].
    rewrite incr_below_max by lia.
    rewrite Nat2Z.inj_succ in *.
    rewrite IH; unfold count_of, fail_at_of, suppressed_of in *; simpl; try lia.
    unfold set_alloc_count; simpl. do 2 f_equal. lia.
Qed.

Lemma no_fail_after_firstn (n : nat) (calls : list (api_call World)) :
  no_fail_after calls = true -> no_fail_after (firstn n calls) = true.
Proof.
  revert n; induction calls as [|a rest IH]; intros [|n] H; try reflexivity.
  simpl in *. apply andb_true_iff in H as [Ha Hrest].
  rewrite Ha. apply IH; assumption.
Qed.

Lemma hooks_firstn (n : nat) (calls : list (api_call World)) :
  hooks (firstn n calls) <= hooks calls.
Proof.
  revert n; induction calls as [|a rest IH]; intros [|n]; simpl firstn;
    try apply hooks_nonneg; try lia.
  rewrite (hooks_cons a rest), (hooks_cons a (firstn n rest)).
  specialize (IH n). lia.
Qed.

(** ** The schedule *)

(** C1 (amended). Let the suppression depth be zero and let [k >= 0] be such
    that the count plus [k] does not exceed [2^64-1].  After [fail_after k],
    none of the first [k] calls of [on_alloc_point] triggers: each returns,
    the callback has not run, [failed()] is false and the count has advanced
    by the number of calls made.  The call after them is due: it runs the
    callback once and sets [_failed]; it returns exactly when the callback
    does. *)
Theorem fail_after_triggers_on_call_after_k c (k : Z) :
  well_formed c -> suppressed_of c = 0 ->
  0 <= k -> count_of c + k <= Uint64.max ->
  let armed := snd (fail_after k c) in
  (forall j : nat, Z.of_nat j <= k ->
     let cj := drive (repeat call_on_alloc_point j) armed in
     callback_runs cj = callback_runs c /\
     fst (failed cj) = Returns false /\
     count_of cj = count_of c + Z.of_nat j /\
     (Z.of_nat j < k -> fst (on_alloc_point cj) = Returns tt)) /\
  let ck := drive (repeat call_on_alloc_point (Z.to_nat k)) armed in
  due ck /\
  callback_runs (snd (on_alloc_point ck)) = S (callback_runs c) /\
  failed_of (snd (on_alloc_point ck)) = true /\
  returned (fst (on_alloc_point ck)) = returned (fst (callback_of c (world c))).
Proof.
  intros (Hc & _ & _) Hs Hk Hsum armed.
  unfold Uint64.in_range in Hc.
  assert (Harmed : armed =
           mk_context
             (mk_injector (count_of c) (count_of c + k) (callback_of c) false 0)
             (world c) (callback_runs c)).
  { subst armed. rewrite fail_after_context. cbn [snd].
    rewrite add_no_overflow by lia. rewrite Hs. reflexivity. }
  assert (Hdrive : forall j : nat, Z.of_nat j <= k ->
           drive (repeat call_on_alloc_point j) armed =
           mk_context
             (mk_injector (count_of c + Z.of_nat j) (count_of c + k)
                (callback_of c) false 0)
             (world c) (callback_runs c)).
  { intros j Hj. rewrite drive_hooks_below; rewrite Harmed;
      unfold count_of, fail_at_of, suppressed_of in *; simpl; try lia.
    reflexivity. }
  split.
  - intros j Hj. cbv zeta. rewrite (Hdrive j Hj).
    split; [reflexivity|]. split; [reflexivity|]. split; [reflexivity|].
    intros Hlt. rewrite on_alloc_point_counted; [reflexivity|reflexivity|].
    unfold count_of, fail_at_of; simpl. lia.
  - cbv zeta. rewrite (Hdrive (Z.to_nat k)) by (rewrite Z2Nat.id; lia).
    rewrite Z2Nat.id by lia.
    set (ck := mk_context _ _ _).
    assert (Hdue : due ck).
    { split; [reflexivity|]. unfold fail_at_of, count_of; simpl. lia. }
    split; [assumption|].
    destruct (on_alloc_point_due_facts ck Hdue) as (Hr & Hf & _).
    split; [exact Hr|]. split; [exact Hf|].
    rewrite (on_alloc_point_due ck Hdue).
    change (callback_of ck (world ck)) with (callback_of c (world c)).
    destruct (callback_of c (world c)) as [[[]|e] w]; reflexivity.
Qed.

(** C7 (amended). After [cancel()], a sequence of calls without
    [fail_after] never triggers as long as the count stays below
    [2^64-1], that is, when the count at the cancel plus the number of
    [on_alloc_point] calls of the sequence does not exceed [2^64-1]: after
    every prefix of the sequence the callback has not run and [_failed] has
    the value it had at the cancel. *)
Theorem cancel_then_calls_never_trigger c (calls : list (api_call World)) :
  well_formed c -> no_fail_after calls = true ->
  count_of c + hooks calls <= Uint64.max ->
  forall n : nat,
    callback_runs (drive (firstn n calls) (snd (cancel c))) = callback_runs c /\
    failed_of (drive (firstn n calls) (snd (cancel c))) = failed_of c.
Proof.
  intros (Hc & _ & _) Hnf Hmax n. unfold Uint64.in_range in Hc.
  pose proof (hooks_firstn n calls) as Hn.
  rewrite cancel_context. cbn [snd].
  set (cc := mk_context _ _ _).
  destruct (drive_disarmed (firstn n calls) cc) as (Hr & Hf & _).
  - apply no_fail_after_firstn; assumption.
  - reflexivity.
  - unfold count_of at 1; simpl. fold (count_of c). lia.
  - unfold count_of at 1; simpl. fold (count_of c). lia.
  - rewrite Hr, Hf. split; reflexivity.
Qed.

(** C8 (amended). A triggering call sets [_failed] and stores the disarmed
    threshold of [cancel()] whether the callback returns or throws.  Hence,
    between a [fail_after] and the next one, the callback runs at most once
    as long as the count stays below [2^64-1]: when the count at the
    [fail_after] plus the number of [on_alloc_point] calls that follow does
    not exceed [2^64-1]. *)
Theorem callback_runs_at_most_once_per_arming c (k : Z)
    (calls : list (api_call World)) :
  well_formed c -> no_fail_after calls = true ->
  count_of c + hooks calls <= Uint64.max ->
  (forall n : nat,
     (callback_runs (drive (firstn n calls) (snd (fail_after k c)))
      <= S (callback_runs c))%nat) /\
  (forall c' : context World, due c' ->
     failed_of (snd (on_alloc_point c')) = true /\
     fail_at_of (snd (on_alloc_point c')) = fail_at_of (snd (cancel c')) /\
     fail_at_of (snd (on_alloc_point c')) = Uint64.max).
Proof.
  intros (Hc & _ & _) Hnf Hmax. unfold Uint64.in_range in Hc. split.
  - intros n. pose proof (hooks_firstn n calls) as Hn.
    rewrite fail_after_context. cbn [snd].
    set (armed := mk_context _ _ _).
    change (callback_runs c) with (callback_runs armed).
    apply drive_at_most_once.
    + apply no_fail_after_firstn; assumption.
    + unfold count_of at 1; simpl. fold (count_of c). lia.
    + unfold count_of at 1; simpl. fold (count_of c). lia.
  - intros c' Hdue.
    destruct (on_alloc_point_due_facts c' Hdue) as (_ & Hf & Hk & _).
    rewrite Hf, Hk. repeat split.
Qed.

(** C6. [fail_after] clears [_failed] whatever its argument, [cancel] leaves
    it alone and a triggering call sets it.  So, after a [fail_after] and any
    calls other than [fail_after], [failed()] answers [true] exactly when one
    of these calls triggered (the callback has run since the [fail_after]);
    and once set the flag stays set over any calls other than [fail_after]. *)
Theorem failed_iff_triggered_since_fail_after c (k : Z)
    (calls : list (api_call World)) :
  no_fail_after calls = true ->
  let armed := snd (fail_after k c) in
  let c' := drive calls armed in
  failed_of armed = false /\
  callback_runs armed = callback_runs c /\
  fst (failed c') = Returns (failed_of c') /\
  (failed_of c' = true <-> (callback_runs armed < callback_runs c')%nat) /\
  failed_of (snd (cancel c)) = failed_of c /\
  (due c -> failed_of (snd (on_alloc_point c)) = true) /\
  (failed_of c = true -> failed_of (drive calls c) = true).
Proof.
  intros Hnf armed c'.
  split; [reflexivity|]. split; [reflexivity|]. split; [reflexivity|].
  split; [|split; [reflexivity|split]].
  - subst c'. destruct (drive_flag_and_runs calls armed Hnf) as [_ ->].
    change (failed_of armed) with false. rewrite orb_false_l.
    apply Nat.ltb_lt.
  - intros Hdue. apply (on_alloc_point_due_facts c Hdue).
  - intros Hf. destruct (drive_flag_and_runs calls c Hnf) as [_ ->].
    rewrite Hf. reflexivity.
Qed.

(** ** The range invariant *)

Lemma perform_well_formed (a : api_call World) c :
  well_formed c -> well_formed (snd (perform a c)).
Proof.
  intros (Hc & Hf & Hs).
  assert (Hmax : Uint64.in_range Uint64.max)
    by (unfold Uint64.in_range; rewrite max_value; lia).
  destruct a; cbn [perform];
    try (unfold well_formed; unfold_calls;
         unfold count_of, fail_at_of, suppressed_of in *;
         split; [|split]; first [assumption | apply wrap_in_range]).
  destruct (on_alloc_point_cases c) as [[_ ->]|[(_ & _ & ->)|Hdue]].
  - exact (conj Hc (conj Hf Hs)).
  - unfold well_formed, count_of, fail_at_of, suppressed_of in *; simpl.
    split; [apply wrap_in_range|]. split; assumption.
  - destruct (on_alloc_point_due_facts c Hdue) as (_ & _ & Hk & Hsup & _ & Hcnt).
    unfold well_formed. rewrite Hk, Hsup.
    split; [|split; assumption].
    destruct Hcnt as [->| ->]; [assumption|apply wrap_in_range].
Qed.

Lemma drive_well_formed (calls : list (api_call World)) c :
  well_formed c -> well_formed (drive calls c).
Proof.
  revert c; induction calls as [|a rest IH]; intros c H; simpl; [assumption|].
  apply IH, perform_well_formed, H.
Qed.

End Properties.

(** * Sample contexts are reachable *)

Lemma initial_context_well_formed (World : Type) (w : World) :
  well_formed (initial_context w).
Proof. concrete. Qed.

Lemma one_counted_context_reachable :
  drive [call_on_alloc_point] (initial_context tt) = one_counted_context.
Proof. reflexivity. Qed.

(** [2^64-1] counted calls from the initial instance saturate the count. *)
Lemma saturated_context_reachable :
  drive (repeat call_on_alloc_point (Z.to_nat Uint64.max)) (initial_context tt) =
  saturated_context.
Proof.
  assert (Hid : Z.of_nat (Z.to_nat Uint64.max) = Uint64.max)
    by (apply Z2Nat.id; rewrite max_value; lia).
  rewrite drive_hooks_below.
  - rewrite Hid. reflexivity.
  - reflexivity.
  - apply Z.le_refl.
  - rewrite Hid. apply Z.le_refl.
  - apply Z.le_refl.
Qed.

(** * Concrete runs *)

(** C1, counterexample.  One allocation point has been counted and the
    offset is [2^64-1]: the sum wraps to [0], so the very first of the
    [2^64-1] calls that should pass triggers and throws [bad_alloc]. *)
Lemma fail_after_overflow_triggers_at_once :
  let c := one_counted_context in
  let k := Uint64.max in
  let armed := snd (fail_after k c) in
  well_formed c /\ suppressed_of c = 0 /\ 0 <= k /\ 1 <= k /\
  Uint64.in_range k /\
  fst (on_alloc_point armed) = Throws bad_alloc /\
  callback_runs (drive (repeat call_on_alloc_point 1) armed) =
    S (callback_runs c) /\
  failed_of (drive (repeat call_on_alloc_point 1) armed) = true.
Proof. concrete. Qed.

(** C2, counterexample.  With the recorder installed and the schedule due,
    the triggering call is counted: the count goes from 0 to 1. *)
Lemma returning_callback_advances_count :
  let c := snd (fail_after 0 recording_context) in
  due c /\
  callback_runs (snd (on_alloc_point c)) = S (callback_runs c) /\
  count_of c = 0 /\
  count_of (snd (on_alloc_point c)) = 1 /\
  count_of (snd (on_alloc_point c)) <> count_of c.
Proof. concrete. Qed.

(** C7, counterexample.  At count [2^64-1] the disarmed threshold of
    [cancel()] is reached: the next call triggers. *)
Lemma cancel_at_saturation_still_triggers :
  let c := saturated_context in
  let c' := drive [call_on_alloc_point] (snd (cancel c)) in
  well_formed c /\ suppressed_of c = 0 /\
  failed_of c = false /\ failed_of c' = true /\
  callback_runs c' = S (callback_runs c) /\
  fst (on_alloc_point (snd (cancel c))) = Throws bad_alloc.
Proof. concrete. Qed.

(** C8, counterexample.  At count [2^64-1], after [fail_after 0], two calls
    of [on_alloc_point] with the default callback both trigger: the first
    throws before the count moves and leaves the threshold at [2^64-1],
    which the count still meets. *)
Lemma two_triggers_in_one_arming :
  let c := saturated_context in
  let calls := [call_on_alloc_point; call_on_alloc_point] in
  let c' := drive calls (snd (fail_after 0 c)) in
  well_formed c /\ no_fail_after calls = true /\
  callback_runs c = O /\ callback_runs c' = 2%nat /\
  ~ (callback_runs c' <= S (callback_runs c))%nat.
Proof. concrete. vm_compute. lia. Qed.

(** C9, counterexample.  With count 1 and offset [2^64-1] the stored
    threshold is [0], not the sum [2^64]. *)
Lemma fail_after_threshold_wraps :
  let c := one_counted_context in
  let count := Uint64.max in
  well_formed c /\ Uint64.in_range count /\
  fail_at_of (snd (fail_after count c)) = 0 /\
  count_of c + count = 2 ^ 64 /\
  fail_at_of (snd (fail_after count c)) <> count_of c + count.
Proof. concrete. Qed.

(** ** Instances of the theorems *)

Lemma suppressed_on_alloc_point_is_invisible_witness :
  let armed := snd (fail_after 0 (initial_context tt)) in
  let c := snd (disable_failure_guard_ctor true armed) in
  due armed /\
  on_alloc_point c = (Returns tt, c) /\
  drive (repeat call_on_alloc_point 5 ++ [guard_exit]) c = armed.
Proof.
  cbv zeta.
  set (c := snd (disable_failure_guard_ctor true
                   (snd (fail_after 0 (initial_context tt))))).
  assert (Hwf : well_formed c) by concrete.
  assert (Hs : suppressed_of c <> 0) by (vm_compute; congruence).
  destruct (suppressed_on_alloc_point_is_invisible c Hwf Hs) as (H1 & _ & H3).
  split; [concrete|]. split; [exact H1|exact (H3 5%nat)].
Defined.

Lemma disable_failure_guards_nest_witness :
  let c := initial_context tt in
  let c1 := snd (disable_failure_guard_ctor true c) in
  let c2 := snd (disable_failure_guard_ctor true c1) in
  let c3 := snd (disable_failure_guard_dtor true c2) in
  let c4 := snd (disable_failure_guard_dtor true c3) in
  suppressed_of c3 <> 0 /\ c4 = c.
Proof.
  cbv zeta.
  assert (Hwf : well_formed (initial_context tt)) by concrete.
  destruct (disable_failure_guards_nest (initial_context tt) Hwf)
    as (_ & _ & H & _ & H4 & _).
  split; [apply H; reflexivity|exact H4].
Defined.

Lemma fail_after_arms_modulo_witness :
  fail_at_of (snd (fail_after 7 (initial_context tt))) = 7 /\
  failed_of (snd (fail_after 7 (initial_context tt))) = false.
Proof.
  assert (Hwf : well_formed (initial_context tt)) by concrete.
  assert (Hk : Uint64.in_range 7) by concrete.
  destruct (fail_after_arms_modulo (initial_context tt) 7 Hwf Hk)
    as (_ & _ & H & _).
  split; [apply H; vm_compute; congruence|reflexivity].
Defined.

Lemma returning_callback_call_is_counted_witness :
  let c := snd (fail_after 0 recording_context) in
  fst (on_alloc_point c) = Returns tt /\
  count_of (snd (on_alloc_point c)) = count_of c + 1.
Proof.
  cbv zeta. set (c := snd (fail_after 0 recording_context)).
  assert (Hdue : due c) by concrete.
  assert (Hcb : fst (callback_of c (world c)) = Returns tt) by reflexivity.
  destruct (returning_callback_call_is_counted c Hdue Hcb) as (H1 & _ & _ & H & _).
  split; [exact H1|apply H; concrete].
Defined.

Lemma throwing_callback_call_is_not_counted_witness :
  let c := snd (fail_after 0 (initial_context tt)) in
  fst (on_alloc_point c) = Throws bad_alloc /\
  count_of (snd (on_alloc_point c)) = count_of c.
Proof.
  cbv zeta. set (c := snd (fail_after 0 (initial_context tt))).
  assert (Hdue : due c) by concrete.
  assert (Hcb : fst (callback_of c (world c)) = Throws bad_alloc) by reflexivity.
  destruct (throwing_callback_call_is_not_counted c bad_alloc Hdue Hcb)
    as (H1 & H2 & _).
  split; [exact H1|exact H2].
Defined.

Lemma recording_callback_runs_once_witness :
  let c := snd (fail_after 0 (initial_context 0%nat)) in
  let c1 := snd (set_alloc_failure_callback recorder c) in
  fst (on_alloc_point c1) = Returns tt /\
  world (snd (on_alloc_point c1)) = 1%nat /\
  fst (failed (snd (on_alloc_point c1))) = Returns true.
Proof.
  cbv zeta. set (c := snd (fail_after 0 (initial_context 0%nat))).
  assert (Hdue : due c) by concrete.
  assert (Hcb : fst (recorder (world c)) = Returns tt) by reflexivity.
  destruct (recording_callback_runs_once c recorder Hdue Hcb)
    as (H1 & _ & H3 & _ & H5).
  split; [exact H1|]. split; [exact H3|exact H5].
Defined.

Lemma fail_after_triggers_on_call_after_k_witness :
  let armed := snd (fail_after 3 (initial_context tt)) in
  let c3 := drive (repeat call_on_alloc_point 3) armed in
  callback_runs c3 = O /\
  callback_runs (snd (on_alloc_point c3)) = 1%nat /\
  failed_of (snd (on_alloc_point c3)) = true.
Proof.
  cbv zeta.
  assert (Hwf : well_formed (initial_context tt)) by concrete.
  assert (Hs : suppressed_of (initial_context tt) = 0) by reflexivity.
  assert (Hk : 0 <= 3) by (vm_compute; congruence).
  assert (Hsum : count_of (initial_context tt) + 3 <= Uint64.max)
    by (vm_compute; congruence).
  destruct (fail_after_triggers_on_call_after_k (initial_context tt) 3 Hwf Hs Hk Hsum)
    as (Hj & _ & Hr & Hf & _).
  split; [|split; [exact Hr|exact Hf]].
  apply (Hj 3%nat). vm_compute; congruence.
Defined.

Lemma cancel_then_calls_never_trigger_witness :
  let c := snd (fail_after 1 (initial_context tt)) in
  let calls :=
    [call_on_alloc_point; call_on_alloc_point; guard_enter;
     call_on_alloc_point; guard_exit; call_on_alloc_point] in
  callback_runs (drive calls (snd (cancel c))) = O /\
  failed_of (drive calls (snd (cancel c))) = false.
Proof.
  cbv zeta. set (c := snd (fail_after 1 (initial_context tt))).
  set (calls := [call_on_alloc_point; call_on_alloc_point; guard_enter;
                 call_on_alloc_point; guard_exit; call_on_alloc_point]).
  assert (Hwf : well_formed c) by concrete.
  assert (Hnf : no_fail_after calls = true) by reflexivity.
  assert (Hmax : count_of c + hooks calls <= Uint64.max)
    by (vm_compute; congruence).
  exact (cancel_then_calls_never_trigger c calls Hwf Hnf Hmax 6%nat).
Defined.

Lemma callback_runs_at_most_once_per_arming_witness :
  let calls := [call_on_alloc_point; call_on_alloc_point; call_on_alloc_point] in
  (callback_runs (drive calls (snd (fail_after 1 (initial_context tt)))) <= 1)%nat.
Proof.
  cbv zeta.
  set (calls := [call_on_alloc_point; call_on_alloc_point; call_on_alloc_point]).
  assert (Hwf : well_formed (initial_context tt)) by concrete.
  assert (Hnf : no_fail_after calls = true) by reflexivity.
  assert (Hmax : count_of (initial_context tt) + hooks calls <= Uint64.max)
    by (vm_compute; congruence).
  destruct (callback_runs_at_most_once_per_arming (initial_context tt) 1 calls
              Hwf Hnf Hmax) as (H & _).
  exact (H 3%nat).
Defined.

Lemma failed_iff_triggered_since_fail_after_witness :
  let calls :=
    [call_on_alloc_point; call_on_alloc_point; call_cancel; call_failed] in
  let armed := snd (fail_after 1 (initial_context tt)) in
  (callback_runs armed < callback_runs (drive calls armed))%nat /\
  failed_of (drive calls armed) = true.
Proof.
  cbv zeta.
  set (calls := [call_on_alloc_point; call_on_alloc_point; call_cancel; call_failed]).
  assert (Hnf : no_fail_after calls = true) by reflexivity.
  destruct (failed_iff_triggered_since_fail_after (initial_context tt) 1 calls Hnf)
    as (_ & _ & _ & H & _).
  assert (Hlt : (callback_runs (snd (fail_after 1 (initial_context tt)))
                 < callback_runs
                     (drive calls (snd (fail_after 1 (initial_context tt)))))%nat)
    by (vm_compute; lia).
  split; [exact Hlt|apply H; exact Hlt].
Defined.


(** * Callers of the injector *)

Section CallerProperties.

Context {World : Type}.

Implicit Types (c : context World) (steps : list step).

(** ** Code under test *)

Lemma alloc_points_suppressed (m : nat) c :
  suppressed_of c <> 0 -> alloc_points true m c = (Returns tt, c).
Proof.
  intros H; induction m as [|m IH]; [reflexivity|].
  cbn [alloc_points memory_on_alloc_point]. unfold bind.
  rewrite on_alloc_point_suppressed by assumption. exact IH.
Qed.

(** A guarded block of allocation points leaves the context as it was. *)
Lemma guarded_block_is_skipped (m : nat) c :
  0 <= suppressed_of c < Uint64.max ->
  run_step true (guarded_alloc_points m) c = (Returns tt, c).
Proof.
  intros Hs. cbn [run_step]. unfold with_disable_failure_guard.
  rewrite guard_ctor_context. cbn [snd].
  rewrite alloc_points_suppressed.
  - rewrite guard_dtor_context. cbn [snd].
    unfold suppressed_of; simpl. fold (suppressed_of c).
    rewrite decr_incr by (unfold Uint64.in_range; lia).
    destruct c as [[] ? ?]; reflexivity.
  - unfold suppressed_of at 1; simpl. rewrite incr_below_max by lia. lia.
Qed.

Lemma open_points_cons (s : step) steps :
  open_points (s :: steps) = open_points [s] + open_points steps.
Proof.
  unfold open_points; simpl. destruct (is_alloc_point s); simpl length; lia.
Qed.

Lemma open_points_nonneg steps : 0 <= open_points steps.
Proof. unfold open_points; lia. Qed.

(** Below the threshold the code runs to its end, and its open allocation
    points are counted. *)
Lemma code_under_test_passes steps c :
  suppressed_of c = 0 -> 0 <= count_of c ->
  count_of c + open_points steps <= fail_at_of c -> fail_at_of c <= Uint64.max ->
  code_under_test true steps c =
  (Returns tt,
   mk_context
     (set_alloc_count (count_of c + open_points steps)
        (the_alloc_failure_injector c))
     (world c) (callback_runs c)).
Proof.
  revert c; induction steps as [|s rest IH]; intros c Hs H0 Hle Hmax.
  - cbn [code_under_test]. unfold ret. unfold open_points; simpl.
    rewrite Z.add_0_r. destruct c as [[] ? ?]; reflexivity.
  - rewrite open_points_cons in *. pose proof (open_points_nonneg rest) as Hr.
    cbn [code_under_test]. unfold bind. destruct s as [|m].
    + change (open_points [alloc_point]) with 1 in *.
      cbn [run_step memory_on_alloc_point].
      assert (Hlt : count_of c < fail_at_of c) by lia.
      rewrite (on_alloc_point_counted c Hs Hlt).
      rewrite incr_below_max by lia.
      rewrite IH; fields; try lia.
      do 3 f_equal. lia.
    + change (open_points [guarded_alloc_points m]) with 0 in *.
      rewrite guarded_block_is_skipped by (rewrite Hs, max_value; lia).
      rewrite IH by (assumption || lia). reflexivity.
Qed.

(** When the threshold lies [j] open allocation points ahead, the code
    reaches its point number [j] (counting from 0), which triggers: a
    throwing callback ends the code there, a returning one lets it run to
    its end with every open point counted. *)
Lemma code_under_test_triggers steps c (j : Z) :
  suppressed_of c = 0 -> 0 <= count_of c ->
  0 <= j < open_points steps -> fail_at_of c = count_of c + j ->
  count_of c + open_points steps <= Uint64.max ->
  code_under_test true steps c =
  match callback_of c (world c) with
  | (Returns _, w) =>
      (Returns tt,
       mk_context
         (mk_injector (count_of c + open_points steps) Uint64.max
            (callback_of c) true 0)
         w (S (callback_runs c)))
  | (Throws e, w) =>
      (Throws e,
       mk_context
         (mk_injector (count_of c + j) Uint64.max (callback_of c) true 0)
         w (S (callback_runs c)))
  end.
Proof.
  revert c j; induction steps as [|s rest IH]; intros c j Hs H0 Hj Hf Hmax.
  - unfold open_points in Hj; simpl in Hj. lia.
  - rewrite open_points_cons in *. pose proof (open_points_nonneg rest) as Hr.
    cbn [code_under_test]. unfold bind. destruct s as [|m].
    + change (open_points [alloc_point]) with 1 in *.
      cbn [run_step memory_on_alloc_point].
      destruct (Z.eq_dec j 0) as [->|Hne].
      * assert (Hdue : due c) by (split; [assumption|lia]).
        rewrite (on_alloc_point_due c Hdue).
        destruct (callback_of c (world c)) as [[[]|e] w] eqn:Hcb.
        -- rewrite incr_below_max by lia.
           rewrite code_under_test_passes; fields; try lia.
           rewrite Hs. do 3 f_equal. lia.
        -- fields. rewrite Hs, Z.add_0_r. reflexivity.
      * assert (Hlt : count_of c < fail_at_of c) by lia.
        rewrite (on_alloc_point_counted c Hs Hlt).
        rewrite incr_below_max by lia.
        rewrite (IH _ (j - 1)); fields; try lia.
        destruct (_on_alloc_failure (the_alloc_failure_injector c) (world c))
          as [[[]|e] w]; do 3 f_equal; lia.
    + change (open_points [guarded_alloc_points m]) with 0 in *.
      rewrite guarded_block_is_skipped by (rewrite Hs, max_value; lia).
      rewrite (IH c j) by (assumption || lia).
      destruct (callback_of c (world c)) as [[[]|e] w]; reflexivity.
Qed.

(** ** One attempt of the loop *)

Lemma attempt_throws steps c (i : Z) (e : exn) (w : World) :
  suppressed_of c = 0 -> 0 <= count_of c ->
  0 <= i < open_points steps -> count_of c + open_points steps <= Uint64.max ->
  callback_of c (world c) = (Throws e, w) ->
  attempt (code_under_test true steps) i c =
  (Throws e,
   mk_context
     (mk_injector (count_of c + i) Uint64.max (callback_of c) true 0)
     w (S (callback_runs c))).
Proof.
  intros Hs H0 Hi Hmax Hcb. unfold attempt, bind at 1.
  rewrite fail_after_context. rewrite add_no_overflow by lia.
  unfold bind.
  rewrite (code_under_test_triggers steps _ i); fields; try lia.
  rewrite Hcb. reflexivity.
Qed.

Lemma attempt_returns steps c (i : Z) :
  suppressed_of c = 0 -> 0 <= count_of c ->
  open_points steps <= i -> count_of c + i <= Uint64.max ->
  attempt (code_under_test true steps) i c =
  (Returns tt,
   mk_context
     (mk_injector (count_of c + open_points steps) Uint64.max (callback_of c)
        false 0)
     (world c) (callback_runs c)).
Proof.
  intros Hs H0 Hi Hmax. pose proof (open_points_nonneg steps) as Hn.
  unfold attempt, bind at 1.
  rewrite fail_after_context. rewrite add_no_overflow by lia.
  unfold bind.
  rewrite code_under_test_passes; fields; try lia.
  rewrite cancel_context. fields. rewrite Hs. reflexivity.
Qed.


(** ** The loop *)



(** X1. One attempt of the loop on code with guarded blocks, for
    callbacks that do not call back into the injector.  With depth zero
    and [fail_after i] not wrapping: when [i] is below the number of open
    allocation points and the callback throws, the attempt ends with
    that exception at open point number [i], after exactly [i] counted
    points, one run of the callback, [_failed] set and the schedule
    disarmed; when [i] is at least that number, the attempt returns with
    every open point counted, no run of the callback, [_failed] clear and
    the schedule disarmed.  Points inside guarded blocks never count. *)
Theorem attempt_fails_at_open_point_i steps c (i : Z) :
  suppressed_of c = 0 -> 0 <= count_of c -> 0 <= i ->
  count_of c + i <= Uint64.max ->
  count_of c + open_points steps <= Uint64.max ->
  (forall e : exn,
     i < open_points steps -> fst (callback_of c (world c)) = Throws e ->
     attempt (code_under_test true steps) i c =
     (Throws e,
      mk_context
        (mk_injector (count_of c + i) Uint64.max (callback_of c) true 0)
        (snd (callback_of c (world c))) (S (callback_runs c)))) /\
  (open_points steps <= i ->
     attempt (code_under_test true steps) i c =
     (Returns tt,
      mk_context
        (mk_injector (count_of c + open_points steps) Uint64.max
           (callback_of c) false 0)
        (world c) (callback_runs c))).
Proof.
  intros Hs H0 Hi Hsum Hmax. split.
  - intros e Hlt Hcb.
    destruct (callback_of c (world c)) as [r w] eqn:Hw. cbn [fst snd] in *.
    subst r. apply attempt_throws; (assumption || lia).
  - intros Hge. apply attempt_returns; assumption.
Qed.




End CallerProperties.

(** * More on sequences of calls *)

Section DriverProperties.

Context {World : Type}.

Implicit Types (c : context World) (calls : list (api_call World)).

Lemma callback_throws_same (e : exn) c c' :
  callback_of c' = callback_of c -> callback_throws e c -> callback_throws e c'.
Proof. unfold callback_throws. intros -> H. exact H. Qed.

(** One call under a callback that always throws: the depth moves as the
    guards say, the callback stays, and an [on_alloc_point] at depth zero
    is either counted or failed. *)
Lemma perform_counted_or_failed (e : exn) (a : api_call World) c :
  callback_throws e c -> keeps_callback [a] = true ->
  0 <= count_of c -> count_of c + hooks [a] <= Uint64.max ->
  let c' := snd (perform a c) in
  callback_of c' = callback_of c /\
  count_of c' + Z.of_nat (callback_runs c') =
    count_of c + Z.of_nat (callback_runs c)
    + unsuppressed_hooks (suppressed_of c) [a] /\
  (forall rest,
     unsuppressed_hooks (suppressed_of c) (a :: rest) =
     unsuppressed_hooks (suppressed_of c) [a] + unsuppressed_hooks (suppressed_of c') rest).
Proof.
  intros Hcb Hk H0 Hmax. cbv zeta.
  destruct a; try discriminate; cbn [perform unsuppressed_hooks];
    try (unfold_calls; repeat split; lia).
  change (hooks [call_on_alloc_point]) with 1 in Hmax.
  destruct (on_alloc_point_cases c) as [[Hs ->]|[(Hs & Hlt & ->)|Hdue]].
  - cbn [snd]. apply Z.eqb_neq in Hs. rewrite Hs. repeat split; lia.
  - fields. rewrite Hs. cbn [Z.eqb]. rewrite incr_below_max by lia.
    repeat split; lia.
  - rewrite (on_alloc_point_due c Hdue).
    destruct Hdue as [Hs _].
    destruct (callback_of c (world c)) as [r w] eqn:Hw.
    assert (Hr : r = Throws e).
    { specialize (Hcb (world c)). rewrite Hw in Hcb. exact Hcb. }
    subst r. fields. rewrite Hs. cbn [Z.eqb]. repeat split; lia.
Qed.

Lemma keeps_callback_cons (a : api_call World) calls :
  keeps_callback (a :: calls) = true ->
  keeps_callback [a] = true /\ keeps_callback calls = true.
Proof.
  unfold keeps_callback; cbn [forallb]. intros H.
  apply andb_true_iff in H as [Ha Hr]. rewrite Ha. split; [reflexivity|exact Hr].
Qed.

(** X5. What [alloc_count()] counts (the comment of line 69).  Under a
    callback that always throws, over any sequence of calls that leaves the
    callback in place ([fail_after] and [cancel] included) and keeps the
    count within [uint64_t], every [on_alloc_point] made at depth zero is
    either counted or failed, and nothing else is: the count and the number
    of failures together grow by the number of such calls. *)
Theorem alloc_count_counts_unsuppressed_points_that_did_not_fail
    (e : exn) calls c :
  callback_throws e c -> keeps_callback calls = true ->
  0 <= count_of c -> count_of c + hooks calls <= Uint64.max ->
  count_of (drive calls c) + Z.of_nat (callback_runs (drive calls c)) =
  count_of c + Z.of_nat (callback_runs c)
  + unsuppressed_hooks (suppressed_of c) calls.
Proof.
  revert c; induction calls as [|a rest IH]; intros c Hcb Hk H0 Hmax.
  - cbn [drive unsuppressed_hooks]. lia.
  - apply keeps_callback_cons in Hk as [Ha Hrest].
    rewrite hooks_cons in Hmax.
    pose proof (hooks_nonneg rest) as Hrn. pose proof (hooks_nonneg [a]) as Han.
    destruct (perform_counted_or_failed e a c Hcb Ha H0 ltac:(lia))
      as (Hsame & Hstep & Hsplit).
    rewrite (Hsplit rest). cbn [drive].
    assert (Hbound : count_of c <= count_of (snd (perform a c))
                     <= count_of c + hooks [a]).
    { destruct a; try discriminate; cbn [perform];
        try (unfold hooks; unfold_calls; cbn [length filter is_on_alloc_point]; lia).
      change (hooks [call_on_alloc_point]) with 1 in *.
      destruct (on_alloc_point_cases c) as [[_ ->]|[(_ & _ & ->)|Hdue]].
      - cbn [snd]. lia.
      - fields. rewrite incr_below_max by lia. lia.
      - destruct (on_alloc_point_due_facts c Hdue) as (_ & _ & _ & _ & _ & [->| ->]);
          [lia|]. rewrite incr_below_max by lia. lia. }
    rewrite IH; [lia| |assumption|lia|lia].
    exact (callback_throws_same e c _ Hsame Hcb).
Qed.

(** Any call at all moves the count by at most one, and never down, while
    the count is below the largest [uint64_t]. *)
Lemma perform_count_bounds (a : api_call World) c :
  0 <= count_of c -> count_of c + hooks [a] <= Uint64.max ->
  count_of c <= count_of (snd (perform a c)) <= count_of c + hooks [a].
Proof.
  intros H0 Hmax. destruct (is_fail_after a) eqn:Ha.
  - destruct a; try discriminate. unfold hooks. unfold_calls.
    cbn [length filter is_on_alloc_point]. fold (count_of c). lia.
  - apply (perform_bounded a c Ha H0 Hmax).
Qed.

(** X6. [alloc_count()] never goes down and never runs ahead of the calls:
    over any sequence of calls whatever (arming, cancelling, callbacks that
    return or throw, guards), as long as the count plus the number of
    [on_alloc_point] calls stays within [uint64_t], the count ends between
    its old value and that value plus the number of [on_alloc_point] calls. *)
Theorem alloc_count_never_decreases calls c :
  0 <= count_of c -> count_of c + hooks calls <= Uint64.max ->
  count_of c <= count_of (drive calls c) <= count_of c + hooks calls.
Proof.
  revert c; induction calls as [|a rest IH]; intros c H0 Hmax.
  - cbn [drive]. unfold hooks; cbn [filter length]. lia.
  - rewrite hooks_cons in *.
    pose proof (hooks_nonneg rest) as Hrn. pose proof (hooks_nonneg [a]) as Han.
    pose proof (perform_count_bounds a c H0 ltac:(lia)) as Hb.
    cbn [drive].
    specialize (IH (snd (perform a c)) ltac:(lia) ltac:(lia)). lia.
Qed.

(** X7. Arming past the end of [uint64_t].  When the count plus the offset
    exceeds [2^64-1], [fail_after] stores a threshold below the count (the
    sum less [2^64]), so the next [on_alloc_point] at depth zero triggers at
    once instead of [count] points later. *)
Theorem fail_after_overflow_fails_next_call c (count : Z) :
  well_formed c -> Uint64.in_range count -> suppressed_of c = 0 ->
  Uint64.max < count_of c + count ->
  let armed := snd (fail_after count c) in
  fail_at_of armed = count_of c + count - 2 ^ 64 /\
  fail_at_of armed < count_of armed /\
  due armed /\
  callback_runs (snd (on_alloc_point armed)) = S (callback_runs c) /\
  failed_of (snd (on_alloc_point armed)) = true.
Proof.
  intros (Hc & _ & _) Hk Hs Hover armed.
  unfold Uint64.in_range in *. rewrite max_value in *.
  assert (Hf : fail_at_of armed = count_of c + count - 2 ^ 64).
  { subst armed. rewrite fail_after_context. fields.
    unfold Uint64.add, Uint64.wrap.
    symmetry. apply (Z.mod_unique _ _ 1); lia. }
  assert (Hcount : count_of armed = count_of c) by reflexivity.
  assert (Hdue : due armed).
  { split; [exact Hs|]. rewrite Hf, Hcount. lia. }
  split; [exact Hf|]. split; [rewrite Hf, Hcount; lia|]. split; [exact Hdue|].
  destruct (on_alloc_point_due_facts armed Hdue) as (Hr & Hfl & _).
  split; [exact Hr|exact Hfl].
Qed.

(** X8. A failed allocation point passes when it is tried again.  After an
    [on_alloc_point] that triggered and whose callback threw without
    calling back into the injector, the schedule is disarmed, so
    the next [on_alloc_point] returns and is counted (below the largest
    [uint64_t]) without a further run of the callback. *)
Theorem failed_point_passes_on_retry c (e : exn) :
  due c -> 0 <= count_of c < Uint64.max ->
  fst (callback_of c (world c)) = Throws e ->
  let c1 := snd (on_alloc_point c) in
  fst (on_alloc_point c) = Throws e /\
  on_alloc_point c1 =
  (Returns tt,
   mk_context
     (mk_injector (count_of c + 1) Uint64.max (callback_of c) true 0)
     (world c1) (callback_runs c1)) /\
  callback_runs c1 = S (callback_runs c).
Proof.
  intros Hdue Hc Hcb. cbv zeta.
  rewrite (on_alloc_point_due c Hdue).
  destruct Hdue as [Hs _].
  destruct (callback_of c (world c)) as [r w] eqn:Hw. cbn [fst] in Hcb. subst r.
  cbn [fst snd]. split; [reflexivity|].
  rewrite on_alloc_point_counted; fields; try lia.
  rewrite incr_below_max by lia. rewrite Hs. split; reflexivity.
Qed.

(** X9. At count [2^64-1] the injector fails every allocation point.  The
    threshold, whatever it is, cannot exceed the count: under a callback
    that always throws, over any sequence of calls that leaves the callback
    in place ([fail_after] with any offset and [cancel] included), every
    [on_alloc_point] at depth zero triggers and the count stays where it
    is. *)
Theorem saturated_count_fails_every_point (e : exn) calls c :
  well_formed c -> count_of c = Uint64.max ->
  callback_throws e c -> keeps_callback calls = true ->
  count_of (drive calls c) = Uint64.max /\
  Z.of_nat (callback_runs (drive calls c)) =
    Z.of_nat (callback_runs c) + unsuppressed_hooks (suppressed_of c) calls.
Proof.
  revert c; induction calls as [|a rest IH]; intros c Hwf Hc Hcb Hk.
  - cbn [drive unsuppressed_hooks]. split; [assumption|lia].
  - apply keeps_callback_cons in Hk as [Ha Hrest].
    pose proof (perform_well_formed a c Hwf) as Hwf'.
    assert (Hstep :
      count_of (snd (perform a c)) = Uint64.max /\
      callback_of (snd (perform a c)) = callback_of c /\
      Z.of_nat (callback_runs (snd (perform a c)))
        + unsuppressed_hooks (suppressed_of (snd (perform a c))) rest =
      Z.of_nat (callback_runs c) + unsuppressed_hooks (suppressed_of c) (a :: rest)).
    { destruct a; try discriminate; cbn [perform unsuppressed_hooks];
        try (unfold_calls; fold (count_of c); repeat split; (assumption || lia)).
      destruct (on_alloc_point_cases c) as [[Hs ->]|[(Hs & Hlt & _)|Hdue]].
      - cbn [snd]. apply Z.eqb_neq in Hs. rewrite Hs.
        repeat split; (assumption || lia).
      - destruct Hwf as (_ & Hf & _). unfold Uint64.in_range in Hf. lia.
      - rewrite (on_alloc_point_due c Hdue). destruct Hdue as [Hs _].
        destruct (callback_of c (world c)) as [r w] eqn:Hw.
        assert (Hr : r = Throws e).
        { specialize (Hcb (world c)). rewrite Hw in Hcb. exact Hcb. }
        subst r. fields. rewrite Hs. cbn [Z.eqb]. repeat split; (assumption || lia). }
    destruct Hstep as (Hc' & Hsame & Hruns).
    cbn [drive].
    destruct (IH (snd (perform a c)) Hwf' Hc'
                (callback_throws_same e c _ Hsame Hcb) Hrest) as (IHc & IHr).
    split; [exact IHc|]. rewrite IHr. lia.
Qed.

End DriverProperties.


(** ** Instances *)

Lemma initial_callback_throws (World : Type) (w : World) :
  callback_throws bad_alloc (initial_context w).
Proof. intros w'. reflexivity. Qed.

Lemma attempt_fails_at_open_point_i_witness :
  let code := code_under_test true sample_code in
  attempt code 1 (initial_context tt) =
    (Throws bad_alloc,
     mk_context (mk_injector 1 Uint64.max default_on_alloc_failure true 0) tt 1%nat) /\
  attempt code 3 (initial_context tt) =
    (Returns tt,
     mk_context (mk_injector 3 Uint64.max default_on_alloc_failure false 0) tt 0%nat).
Proof.
  cbv zeta.
  assert (Hs : suppressed_of (initial_context tt) = 0) by reflexivity.
  assert (H0 : 0 <= count_of (initial_context tt)) by (vm_compute; congruence).
  assert (Hmax : count_of (initial_context tt) + open_points sample_code
                 <= Uint64.max) by (vm_compute; congruence).
  split.
  - assert (Hi : 0 <= 1) by (vm_compute; congruence).
    assert (Hsum : count_of (initial_context tt) + 1 <= Uint64.max)
      by (vm_compute; congruence).
    destruct (attempt_fails_at_open_point_i sample_code (initial_context tt) 1
                Hs H0 Hi Hsum Hmax) as (H & _).
    apply (H bad_alloc); reflexivity.
  - assert (Hi : 0 <= 3) by (vm_compute; congruence).
    assert (Hsum : count_of (initial_context tt) + 3 <= Uint64.max)
      by (vm_compute; congruence).
    destruct (attempt_fails_at_open_point_i sample_code (initial_context tt) 3
                Hs H0 Hi Hsum Hmax) as (_ & H).
    apply H. vm_compute; congruence.
Defined.



Lemma alloc_count_counts_unsuppressed_points_that_did_not_fail_witness :
  let c' := drive sample_calls (initial_context tt) in
  unsuppressed_hooks 0 sample_calls = 3 /\
  count_of c' + Z.of_nat (callback_runs c') = 3.
Proof.
  cbv zeta. split; [reflexivity|].
  assert (Hk : keeps_callback sample_calls = true) by reflexivity.
  assert (H0 : 0 <= count_of (initial_context tt)) by (vm_compute; congruence).
  assert (Hmax : count_of (initial_context tt) + hooks sample_calls <= Uint64.max)
    by (vm_compute; congruence).
  exact (alloc_count_counts_unsuppressed_points_that_did_not_fail bad_alloc
           sample_calls (initial_context tt) (initial_callback_throws unit tt)
           Hk H0 Hmax).
Defined.

Lemma alloc_count_never_decreases_witness :
  0 <= count_of (drive sample_calls (initial_context tt)) <= 4.
Proof.
  assert (H0 : 0 <= count_of (initial_context tt)) by (vm_compute; congruence).
  assert (Hmax : count_of (initial_context tt) + hooks sample_calls <= Uint64.max)
    by (vm_compute; congruence).
  exact (alloc_count_never_decreases sample_calls (initial_context tt) H0 Hmax).
Defined.

Lemma fail_after_overflow_fails_next_call_witness :
  let armed := snd (fail_after Uint64.max one_counted_context) in
  fail_at_of armed = 0 /\ due armed /\
  failed_of (snd (on_alloc_point armed)) = true.
Proof.
  cbv zeta.
  assert (Hwf : well_formed one_counted_context) by concrete.
  assert (Hk : Uint64.in_range Uint64.max) by concrete.
  assert (Hs : suppressed_of one_counted_context = 0) by reflexivity.
  assert (Hover : Uint64.max < count_of one_counted_context + Uint64.max)
    by reflexivity.
  destruct (fail_after_overflow_fails_next_call one_counted_context Uint64.max
              Hwf Hk Hs Hover) as (Hf & _ & Hdue & _ & Hfl).
  split; [exact Hf|]. split; [exact Hdue|exact Hfl].
Defined.

Lemma failed_point_passes_on_retry_witness :
  let c := snd (fail_after 0 (initial_context tt)) in
  let c1 := snd (on_alloc_point c) in
  fst (on_alloc_point c) = Throws bad_alloc /\
  fst (on_alloc_point c1) = Returns tt /\
  count_of (snd (on_alloc_point c1)) = 1.
Proof.
  cbv zeta. set (c := snd (fail_after 0 (initial_context tt))).
  assert (Hdue : due c) by concrete.
  assert (Hc : 0 <= count_of c < Uint64.max) by concrete.
  assert (Hcb : fst (callback_of c (world c)) = Throws bad_alloc) by reflexivity.
  destruct (failed_point_passes_on_retry c bad_alloc Hdue Hc Hcb) as (H1 & H2 & _).
  split; [exact H1|]. rewrite H2. split; reflexivity.
Defined.

Lemma saturated_count_fails_every_point_witness :
  let calls : list (api_call unit) :=
    [call_cancel; call_on_alloc_point; call_fail_after 5; call_on_alloc_point] in
  count_of (drive calls saturated_context) = Uint64.max /\
  Z.of_nat (callback_runs (drive calls saturated_context)) = 2.
Proof.
  cbv zeta.
  assert (Hwf : well_formed saturated_context) by concrete.
  assert (Hc : count_of saturated_context = Uint64.max) by reflexivity.
  assert (Hcb : callback_throws bad_alloc saturated_context)
    by (intros w; reflexivity).
  exact (saturated_count_fails_every_point bad_alloc
           [call_cancel; call_on_alloc_point; call_fail_after 5; call_on_alloc_point]
           saturated_context Hwf Hc Hcb eq_refl).
Defined.


(** * Closures that call back into the injector *)

Section ReentrantProperties.

Context {World : Type}.

Implicit Types (c : Reentrant.context World) (body : Reentrant.closure World).

(** A closure outside the injector acts on the world alone, whatever a
    nested [on_alloc_point] would do. *)
Lemma run_closure_external (hook : Reentrant.M World unit) body c :
  Reentrant.external body = true ->
  Reentrant.run_closure hook body c =
  Some
    (fst (Reentrant.external_effect body (Reentrant.world c)),
     Reentrant.mk_context (Reentrant.the_alloc_failure_injector c)
       (snd (Reentrant.external_effect body (Reentrant.world c)))
       (Reentrant.callback_runs c)).
Proof.
  revert c; induction body as [|a rest IH]; intros c Hext.
  - destruct c; reflexivity.
  - destruct a as [f| | |]; try discriminate.
    cbn [Reentrant.external forallb] in Hext.
    cbn [Reentrant.run_closure Reentrant.external_effect].
    unfold Reentrant.bind, Reentrant.run_external.
    destruct (f (Reentrant.world c)) as [[[]|e] w]; [|reflexivity].
    rewrite IH by exact Hext. reflexivity.
Qed.

(** Lines 61 to 66 when the stored closure stays outside the injector. *)
Lemma reentrant_on_alloc_point_due (depth : nat) c :
  Reentrant.due c -> Reentrant.external (Reentrant.closure_of c) = true ->
  Reentrant.on_alloc_point (S depth) c =
  Some
    match Reentrant.external_effect (Reentrant.closure_of c) (Reentrant.world c) with
    | (Returns _, w) =>
        (Returns tt,
         Reentrant.mk_context
           (Reentrant.mk_injector (Uint64.incr (Reentrant.count_of c)) Uint64.max
              (Reentrant.closure_of c) true (Reentrant.suppressed_of c))
           w (S (Reentrant.callback_runs c)))
    | (Throws e, w) =>
        (Throws e,
         Reentrant.mk_context
           (Reentrant.mk_injector (Reentrant.count_of c) Uint64.max
              (Reentrant.closure_of c) true (Reentrant.suppressed_of c))
           w (S (Reentrant.callback_runs c)))
    end.
Proof.
  unfold Reentrant.due, Reentrant.suppressed_of, Reentrant.count_of,
    Reentrant.fail_at_of, Reentrant.closure_of.
  intros [Hs Hge] Hext. cbn [Reentrant.on_alloc_point].
  unfold Reentrant.on_alloc_point_body.
  unfold Reentrant.bind at 1, Reentrant.local_failure_injector at 1.
  rewrite Hs. cbn [Z.eqb negb].
  apply Z.leb_le in Hge. rewrite Hge.
  unfold Reentrant.cancel, Reentrant.call_on_alloc_failure, Reentrant.bind,
    Reentrant.store, Reentrant.local_failure_injector,
    Reentrant.set_failed, Reentrant.set_fail_at.
  cbn [Reentrant.the_alloc_failure_injector Reentrant.world
       Reentrant.callback_runs Reentrant._alloc_count Reentrant._fail_at
       Reentrant._on_alloc_failure Reentrant._failed Reentrant._suppressed].
  rewrite run_closure_external by exact Hext.
  cbn [Reentrant.world fst snd].
  destruct (Reentrant.external_effect
              (Reentrant._on_alloc_failure (Reentrant.the_alloc_failure_injector c))
              (Reentrant.world c)) as [[[]|e] w]; cbn [fst snd];
    [|rewrite ?Hs; reflexivity].
  unfold Reentrant.set_alloc_count.
  cbn [Reentrant.the_alloc_failure_injector Reentrant._alloc_count
       Reentrant._fail_at Reentrant._on_alloc_failure Reentrant._failed
       Reentrant._suppressed Reentrant.world Reentrant.callback_runs].
  rewrite ?Hs. reflexivity.
Qed.

(** For closures outside the injector the second embedding is the first:
    [on_alloc_point], at any depth but zero, does to a context what the
    first embedding does to the context it stands for. *)
Lemma external_closure_is_callback (depth : nat) c :
  Reentrant.external (Reentrant.closure_of c) = true ->
  option_map (fun rc => (fst rc, forget (snd rc)))
    (Reentrant.on_alloc_point (S depth) c) =
  Some (on_alloc_point (forget c)).
Proof.
  intros Hext.
  destruct (on_alloc_point_cases (forget c)) as [[Hs E]|[(Hs & Hlt & E)|Hdue]].
  - rewrite E. cbn [Reentrant.on_alloc_point].
    unfold Reentrant.on_alloc_point_body.
    unfold Reentrant.bind, Reentrant.local_failure_injector.
    change (Reentrant._suppressed (Reentrant.the_alloc_failure_injector c))
      with (suppressed_of (forget c)).
    apply Z.eqb_neq in Hs. rewrite Hs. reflexivity.
  - rewrite E. cbn [Reentrant.on_alloc_point].
    unfold Reentrant.on_alloc_point_body.
    unfold Reentrant.bind, Reentrant.local_failure_injector.
    change (Reentrant._suppressed (Reentrant.the_alloc_failure_injector c))
      with (suppressed_of (forget c)).
    change (Reentrant._fail_at (Reentrant.the_alloc_failure_injector c))
      with (fail_at_of (forget c)).
    change (Reentrant._alloc_count (Reentrant.the_alloc_failure_injector c))
      with (count_of (forget c)).
    rewrite Hs. cbn [Z.eqb negb].
    apply Z.leb_gt in Hlt. rewrite Hlt. reflexivity.
  - rewrite (on_alloc_point_due (forget c) Hdue).
    rewrite (reentrant_on_alloc_point_due depth c Hdue Hext).
    change (callback_of (forget c) (world (forget c)))
      with (Reentrant.external_effect (Reentrant.closure_of c) (Reentrant.world c)).
    destruct (Reentrant.external_effect (Reentrant.closure_of c) (Reentrant.world c))
      as [[[]|e] w]; reflexivity.
Qed.

Lemma external_closure_is_callback_elsewhere (count : Z) c :
  option_map (fun rc => (fst rc, forget (snd rc))) (Reentrant.fail_after count c) =
    Some (fail_after count (forget c)) /\
  option_map (fun rc => (fst rc, forget (snd rc))) (Reentrant.cancel c) =
    Some (cancel (forget c)).
Proof. split; reflexivity. Qed.

(** The depth is a bound and nothing more: what a call does within some
    depth it does within any greater one. *)
Lemma run_closure_mono (h1 h2 : Reentrant.M World unit) body :
  (forall c r, h1 c = Some r -> h2 c = Some r) ->
  forall c r,
    Reentrant.run_closure h1 body c = Some r ->
    Reentrant.run_closure h2 body c = Some r.
Proof.
  intros Hh. induction body as [|a rest IH]; intros c r H; [exact H|].
  destruct a as [f| |count|]; cbn [Reentrant.run_closure] in *;
    unfold Reentrant.bind in *.
  - destruct (Reentrant.run_external f c) as [[[[]|e] c']|]; auto.
  - destruct (h1 c) as [[[[]|e] c']|] eqn:E; try discriminate;
      rewrite (Hh _ _ E); auto.
  - destruct (Reentrant.fail_after count c) as [[[[]|e] c']|]; auto.
  - destruct (Reentrant.cancel c) as [[[[]|e] c']|]; auto.
Qed.

Lemma bind_mono {A B : Type} (m1 m2 : Reentrant.M World A)
    (k1 k2 : A -> Reentrant.M World B) :
  (forall c r, m1 c = Some r -> m2 c = Some r) ->
  (forall a c r, k1 a c = Some r -> k2 a c = Some r) ->
  forall c r, Reentrant.bind m1 k1 c = Some r -> Reentrant.bind m2 k2 c = Some r.
Proof.
  intros Hm Hk c r. unfold Reentrant.bind.
  destruct (m1 c) as [[[a|e] c']|] eqn:E; [| |discriminate];
    rewrite (Hm _ _ E); auto.
Qed.

Lemma on_alloc_point_body_mono (h1 h2 : Reentrant.M World unit) :
  (forall c r, h1 c = Some r -> h2 c = Some r) ->
  forall c r,
    Reentrant.on_alloc_point_body h1 c = Some r ->
    Reentrant.on_alloc_point_body h2 c = Some r.
Proof.
  intros Hh. unfold Reentrant.on_alloc_point_body.
  apply bind_mono; [auto|]. intros this.
  destruct (negb (Reentrant._suppressed this =? 0)); [auto|].
  apply bind_mono; [|auto].
  destruct (Reentrant._fail_at this <=? Reentrant._alloc_count this); [|auto].
  apply bind_mono; [auto|]. intros _.
  apply bind_mono; [auto|]. intros _.
  unfold Reentrant.call_on_alloc_failure. intros c r.
  apply run_closure_mono, Hh.
Qed.

Lemma on_alloc_point_depth_mono (depth : nat) :
  forall c r,
    Reentrant.on_alloc_point depth c = Some r ->
    Reentrant.on_alloc_point (S depth) c = Some r.
Proof.
  induction depth as [|d IH]; intros c r H; [discriminate|].
  exact (on_alloc_point_body_mono _ _ IH c r H).
Qed.

Lemma on_alloc_point_depth_le (d d' : nat) c r :
  (d <= d')%nat ->
  Reentrant.on_alloc_point d c = Some r ->
  Reentrant.on_alloc_point d' c = Some r.
Proof.
  induction 1 as [|d' _ IH]; intros H; [exact H|].
  apply on_alloc_point_depth_mono, IH, H.
Qed.

(** Lines 61 and 66 below the threshold: no closure runs. *)
Lemma reentrant_on_alloc_point_counted (depth : nat) c :
  Reentrant.suppressed_of c = 0 ->
  Reentrant.count_of c < Reentrant.fail_at_of c ->
  Reentrant.on_alloc_point (S depth) c =
  Some
    (Returns tt,
     Reentrant.mk_context
       (Reentrant.set_alloc_count (Uint64.incr (Reentrant.count_of c))
          (Reentrant.the_alloc_failure_injector c))
       (Reentrant.world c) (Reentrant.callback_runs c)).
Proof.
  unfold Reentrant.suppressed_of, Reentrant.count_of, Reentrant.fail_at_of.
  intros Hs Hlt. cbn [Reentrant.on_alloc_point].
  unfold Reentrant.on_alloc_point_body.
  unfold Reentrant.bind at 1, Reentrant.local_failure_injector at 1.
  rewrite Hs. cbn [Z.eqb negb].
  apply Z.leb_gt in Hlt. rewrite Hlt.
  destruct c; reflexivity.
Qed.

(** ** Closures that stay outside the injector *)

(** C2 (amended). When [on_alloc_point] triggers and the stored closure
    throws without calling back into the injector, as the default one does,
    the exception leaves [on_alloc_point] before line 66: the count is the
    one before the call, [_failed] is set, the schedule is disarmed and the
    closure has run once. *)
Theorem external_throwing_callback_call_is_not_counted (depth : nat) c (e : exn) :
  Reentrant.due c ->
  Reentrant.external (Reentrant.closure_of c) = true ->
  fst (Reentrant.external_effect (Reentrant.closure_of c) (Reentrant.world c))
    = Throws e ->
  exists c',
    Reentrant.on_alloc_point (S depth) c = Some (Throws e, c') /\
    Reentrant.count_of c' = Reentrant.count_of c /\
    Reentrant.failed_of c' = true /\
    Reentrant.fail_at_of c' = Uint64.max /\
    Reentrant.callback_runs c' = S (Reentrant.callback_runs c).
Proof.
  intros Hdue Hext Hthrows.
  rewrite (reentrant_on_alloc_point_due depth c Hdue Hext).
  destruct (Reentrant.external_effect (Reentrant.closure_of c) (Reentrant.world c))
    as [[[]|e'] w]; cbn [fst] in Hthrows; [discriminate|].
  injection Hthrows as ->.
  eexists. split; [reflexivity|]. repeat split.
Qed.

(** C3 (amended). After [set_alloc_failure_callback] with a closure that
    returns and does not call back into the injector, the call of
    [on_alloc_point] that is due runs the closure once, on the world as it
    was, returns to its caller, and [failed()] answers [true] afterwards. *)
Theorem external_returning_callback_runs_once (depth : nat) c body :
  Reentrant.due c ->
  Reentrant.external body = true ->
  fst (Reentrant.external_effect body (Reentrant.world c)) = Returns tt ->
  exists c1 c2,
    Reentrant.set_alloc_failure_callback body c = Some (Returns tt, c1) /\
    Reentrant.on_alloc_point (S depth) c1 = Some (Returns tt, c2) /\
    Reentrant.callback_runs c2 = S (Reentrant.callback_runs c) /\
    Reentrant.world c2 = snd (Reentrant.external_effect body (Reentrant.world c)) /\
    Reentrant.closure_of c2 = body /\
    Reentrant.failed c2 = Some (Returns true, c2).
Proof.
  intros Hdue Hext Hret.
  set (c1 := Reentrant.mk_context
               (Reentrant.set_on_alloc_failure body
                  (Reentrant.the_alloc_failure_injector c))
               (Reentrant.world c) (Reentrant.callback_runs c)).
  assert (Hdue1 : Reentrant.due c1) by exact Hdue.
  assert (Hext1 : Reentrant.external (Reentrant.closure_of c1) = true) by exact Hext.
  pose proof (reentrant_on_alloc_point_due depth c1 Hdue1 Hext1) as Hrun.
  change (Reentrant.closure_of c1) with body in Hrun.
  change (Reentrant.world c1) with (Reentrant.world c) in Hrun.
  destruct (Reentrant.external_effect body (Reentrant.world c)) as [[[]|e] w];
    cbn [fst] in Hret; [|discriminate].
  exists c1. eexists. split; [reflexivity|]. split; [exact Hrun|]. repeat split.
Qed.

(** C10 (amended). When the count has reached the threshold, injection is
    not suppressed and the stored closure returns without calling back into
    the injector, [on_alloc_point] returns as well, after one run of the
    closure, and has applied [++_alloc_count]: the count is the old one
    plus one in [uint64_t], which is the old one plus one below [2^64-1].
    A call that does not trigger, made at the same count, leaves the same
    count. *)
Theorem external_returning_callback_call_is_counted (depth : nat) c :
  Reentrant.due c ->
  Reentrant.external (Reentrant.closure_of c) = true ->
  fst (Reentrant.external_effect (Reentrant.closure_of c) (Reentrant.world c))
    = Returns tt ->
  exists c',
    Reentrant.on_alloc_point (S depth) c = Some (Returns tt, c') /\
    Reentrant.callback_runs c' = S (Reentrant.callback_runs c) /\
    Reentrant.count_of c' = Uint64.incr (Reentrant.count_of c) /\
    (0 <= Reentrant.count_of c < Uint64.max ->
     Reentrant.count_of c' = Reentrant.count_of c + 1) /\
    (forall c0 : Reentrant.context World,
       Reentrant.suppressed_of c0 = 0 ->
       Reentrant.count_of c0 < Reentrant.fail_at_of c0 ->
       Reentrant.count_of c0 = Reentrant.count_of c ->
       exists c0',
         Reentrant.on_alloc_point (S depth) c0 = Some (Returns tt, c0') /\
         Reentrant.count_of c0' = Reentrant.count_of c').
Proof.
  intros Hdue Hext Hret.
  rewrite (reentrant_on_alloc_point_due depth c Hdue Hext).
  destruct (Reentrant.external_effect (Reentrant.closure_of c) (Reentrant.world c))
    as [[[]|e] w]; cbn [fst] in Hret; [|discriminate].
  eexists. split; [reflexivity|]. split; [reflexivity|]. split; [reflexivity|].
  split.
  - intros H. apply incr_below_max; exact H.
  - intros c0 Hs Hlt Heq.
    rewrite (reentrant_on_alloc_point_counted depth c0 Hs Hlt).
    eexists. split; [reflexivity|].
    rewrite Heq. reflexivity.
Qed.

End ReentrantProperties.

(** ** Closures that call back: concrete runs *)

(** C3, counterexample.  The installed closure calls [fail_after(0)] and
    returns.  On the scheduled call it runs once and [on_alloc_point]
    returns, but line 77 has cleared [_failed] after line 62 set it:
    [failed()] answers [false], and the schedule is armed again at 0. *)
Lemma rearming_callback_leaves_failed_clear :
  let c0 := Reentrant.initial_context tt in
  let c1 := Reentrant.after (Reentrant.set_alloc_failure_callback rearming_closure c0) c0 in
  let c2 := Reentrant.after (Reentrant.fail_after 0 c1) c1 in
  let c3 := Reentrant.after (Reentrant.on_alloc_point 2 c2) c2 in
  Reentrant.closure_of c2 = rearming_closure /\
  Reentrant.due c2 /\
  Reentrant.on_alloc_point 2 c2 = Some (Returns tt, c3) /\
  Reentrant.callback_runs c3 = 1%nat /\
  Reentrant.failed c3 = Some (Returns false, c3) /\
  Reentrant.fail_at_of c3 = 0.
Proof. concrete. Qed.

(** C10, counterexample.  The installed closure calls [on_alloc_point()]
    (it allocates) and returns.  The nested call is counted at line 66, and
    so is the triggering call once the closure has returned: the count goes
    from 0 to 2, where a call that does not trigger takes it from 0 to 1. *)
Lemma allocating_callback_is_counted_twice :
  let c0 := Reentrant.initial_context tt in
  let c1 := Reentrant.after (Reentrant.set_alloc_failure_callback allocating_closure c0) c0 in
  let c2 := Reentrant.after (Reentrant.fail_after 0 c1) c1 in
  let c3 := Reentrant.after (Reentrant.on_alloc_point 2 c2) c2 in
  Reentrant.due c2 /\
  Reentrant.count_of c2 = 0 /\
  Reentrant.on_alloc_point 2 c2 = Some (Returns tt, c3) /\
  Reentrant.callback_runs c3 = 1%nat /\
  Reentrant.count_of c3 = 2 /\
  Reentrant.count_of c3 <> Uint64.incr (Reentrant.count_of c2) /\
  Reentrant.count_of c1 = 0 /\
  Reentrant.count_of (Reentrant.after (Reentrant.on_alloc_point 2 c1) c1) = 1.
Proof. concrete. Qed.

(** A closure that calls [on_alloc_point()] and then throws: the nested
    call has been counted when the exception leaves the triggering call. *)
Lemma allocating_throwing_callback_is_counted :
  let c0 := Reentrant.initial_context tt in
  let c1 :=
    Reentrant.after
      (Reentrant.set_alloc_failure_callback allocating_throwing_closure c0) c0 in
  let c2 := Reentrant.after (Reentrant.fail_after 0 c1) c1 in
  let c3 := Reentrant.after (Reentrant.on_alloc_point 2 c2) c2 in
  Reentrant.due c2 /\
  Reentrant.on_alloc_point 2 c2 = Some (Throws bad_alloc, c3) /\
  Reentrant.count_of c2 = 0 /\
  Reentrant.count_of c3 = 1.
Proof. concrete. Qed.

(** The runs above do not depend on the depth allowed. *)
Lemma concrete_runs_at_any_depth (depth : nat) :
  (2 <= depth)%nat ->
  let armed (body : Reentrant.closure unit) :=
    Reentrant.after
      (Reentrant.fail_after 0
         (Reentrant.after
            (Reentrant.set_alloc_failure_callback body (Reentrant.initial_context tt))
            (Reentrant.initial_context tt)))
      (Reentrant.initial_context tt) in
  Reentrant.on_alloc_point depth (armed rearming_closure) =
    Reentrant.on_alloc_point 2 (armed rearming_closure) /\
  Reentrant.on_alloc_point depth (armed allocating_closure) =
    Reentrant.on_alloc_point 2 (armed allocating_closure) /\
  Reentrant.on_alloc_point depth (armed allocating_throwing_closure) =
    Reentrant.on_alloc_point 2 (armed allocating_throwing_closure).
Proof.
  intros Hd armed.
  repeat split;
    match goal with
    | |- _ = Reentrant.on_alloc_point 2 ?c =>
        destruct (Reentrant.on_alloc_point 2 c) as [r|] eqn:E;
        [exact (on_alloc_point_depth_le 2 depth c r Hd E)|vm_compute in E; discriminate]
    end.
Qed.

(** ** Instances *)

Lemma external_throwing_callback_call_is_not_counted_witness :
  let c0 := Reentrant.initial_context tt in
  let c := Reentrant.after (Reentrant.fail_after 0 c0) c0 in
  exists c',
    Reentrant.on_alloc_point 1 c = Some (Throws bad_alloc, c') /\
    Reentrant.count_of c' = Reentrant.count_of c /\
    Reentrant.failed_of c' = true /\
    Reentrant.fail_at_of c' = Uint64.max /\
    Reentrant.callback_runs c' = S (Reentrant.callback_runs c).
Proof.
  cbv zeta.
  set (c := Reentrant.after (Reentrant.fail_after 0 (Reentrant.initial_context tt))
              (Reentrant.initial_context tt)).
  assert (Hdue : Reentrant.due c) by concrete.
  assert (Hext : Reentrant.external (Reentrant.closure_of c) = true) by reflexivity.
  assert (Hthrows : fst (Reentrant.external_effect (Reentrant.closure_of c)
                           (Reentrant.world c)) = Throws bad_alloc) by reflexivity.
  exact (external_throwing_callback_call_is_not_counted 0 c bad_alloc
           Hdue Hext Hthrows).
Defined.

Lemma external_returning_callback_runs_once_witness :
  let c0 := Reentrant.initial_context 0%nat in
  let c := Reentrant.after (Reentrant.fail_after 0 c0) c0 in
  exists c1 c2,
    Reentrant.set_alloc_failure_callback recording_closure c = Some (Returns tt, c1) /\
    Reentrant.on_alloc_point 1 c1 = Some (Returns tt, c2) /\
    Reentrant.callback_runs c2 = 1%nat /\
    Reentrant.world c2 = 1%nat /\
    Reentrant.closure_of c2 = recording_closure /\
    Reentrant.failed c2 = Some (Returns true, c2).
Proof.
  cbv zeta.
  set (c := Reentrant.after (Reentrant.fail_after 0 (Reentrant.initial_context 0%nat))
              (Reentrant.initial_context 0%nat)).
  assert (Hdue : Reentrant.due c) by concrete.
  assert (Hext : Reentrant.external recording_closure = true) by reflexivity.
  assert (Hret : fst (Reentrant.external_effect recording_closure (Reentrant.world c))
                 = Returns tt) by reflexivity.
  exact (external_returning_callback_runs_once 0 c recording_closure
           Hdue Hext Hret).
Defined.

Lemma external_returning_callback_call_is_counted_witness :
  let c0 := Reentrant.initial_context 0%nat in
  let c1 := Reentrant.after (Reentrant.set_alloc_failure_callback recording_closure c0) c0 in
  let c := Reentrant.after (Reentrant.fail_after 0 c1) c1 in
  exists c',
    Reentrant.on_alloc_point 1 c = Some (Returns tt, c') /\
    Reentrant.callback_runs c' = 1%nat /\
    Reentrant.count_of c' = 1.
Proof.
  cbv zeta.
  set (c0 := Reentrant.initial_context 0%nat).
  set (c1 := Reentrant.after (Reentrant.set_alloc_failure_callback recording_closure c0) c0).
  set (c := Reentrant.after (Reentrant.fail_after 0 c1) c1).
  assert (Hdue : Reentrant.due c) by concrete.
  assert (Hext : Reentrant.external (Reentrant.closure_of c) = true) by reflexivity.
  assert (Hret : fst (Reentrant.external_effect (Reentrant.closure_of c)
                        (Reentrant.world c)) = Returns tt) by reflexivity.
  destruct (external_returning_callback_call_is_counted 0 c Hdue Hext Hret)
    as (c' & Hrun & Hruns & Hcount & _).
  exists c'. split; [exact Hrun|]. split; [exact Hruns|exact Hcount].
Defined.
